(** * snn.py: the distributed evaluation harness

    A shallow embedding of [image classification/ImageNet/snn.py]: the running
    statistics ([AverageMeter]), top-k accuracy ([accuracy]), the cross-rank
    reduction ([reduce_tensor]), the evaluation loop ([validate]), the
    evaluation branch of the preprocessing pipeline ([create_dali_pipeline]),
    checkpoint resume ([main.resume]) and [main] itself, as a function of the
    parsed arguments, the environment and the file system that records the
    external calls it makes.

    Numbers.  Python floats are idealised as exact rationals ([Qc], canonical
    fractions, so that Leibniz equality is Python's [==] on the values that
    occur); every constant that the statements below evaluate (5, 12.5, 8.75,
    11, 100/B for small B) is exactly representable in binary64.  Integer
    tensors (labels, predicted class indices) are [Z].

    Exceptions.  A Python call either returns or raises; a method that mutates
    [self] before raising leaves the mutation behind.  Both are kept: see
    [Outcome]. *)

From Stdlib Require Import QArith Qcanon.
From stdpp Require Import base option list numbers sorting strings pretty gmap.

Local Open Scope Qc_scope.

(** ** Python exceptions and outcomes *)

(** The exceptions of Python and of the parts of the program, by class; for
    [torch.load] and [load_state_dict], whose exceptions are of classes that
    the libraries choose ([pickle.UnpicklingError], [IndexError], [EOFError]
    on a file that does not load; [RuntimeError], [ValueError],
    [AttributeError], [TypeError] on an object that is no fitting state dict),
    one constructor each stands for whatever they raise. *)
Inductive Exn : Type :=
| ZeroDivisionError
| ValueError
| RuntimeError
| KeyError (key : string)
| TorchLoadError
| LoadStateDictError
| ConfigurationError
| CorruptImageError.

(** The outcome of a call on a mutable receiver of type [S]: the receiver
    after the call, and either the returned value or the exception raised. *)
Inductive Outcome (S A : Type) : Type :=
| Returned (s : S) (a : A)
| Raised (s : S) (e : Exn).
Arguments Returned {S A} s a.
Arguments Raised {S A} s e.

(** A stateless fallible computation. *)
Inductive Result (A : Type) : Type :=
| Ok (a : A)
| Err (e : Exn).
Arguments Ok {A} a.
Arguments Err {A} e.

Definition rbind {A B : Type} (r : Result A) (k : A -> Result B) : Result B :=
  match r with
  | Ok a => k a
  | Err e => Err e
  end.

Notation "x <-? r ; k" := (rbind r (fun x => k))
  (at level 100, r at next level, right associativity, only parsing).

(** [for x in xs: f x] for a fallible body that collects one result per item. *)
Fixpoint rmap {A B : Type} (f : A -> Result B) (xs : list A) : Result (list B) :=
  match xs with
  | [] => Ok []
  | x :: xs' => y <-? f x; ys <-? rmap f xs'; Ok (y :: ys)
  end.

(** ** [AverageMeter] (source lines 381-396) *)

Record AverageMeter : Type := mkMeter {
  val : Qc;
  avg : Qc;
  sum : Qc;
  count : Qc
}.

(** [reset]: all four fields become 0. *)
Definition reset (self : AverageMeter) : AverageMeter :=
  {| val := 0; avg := 0; sum := 0; count := 0 |}.

(** [__init__] calls [reset] on the new object. *)
Definition AverageMeter_init : AverageMeter :=
  reset {| val := 0; avg := 0; sum := 0; count := 0 |}.

(** [update(val, n)]: the three assignments to [val], [sum] and [count] happen
    first; the division [self.sum / self.count] raises [ZeroDivisionError]
    when the new count is zero, and then [avg] keeps its old value. *)
Definition update (self : AverageMeter) (v n : Qc) : Outcome AverageMeter unit :=
  let self1 := {| val := v; avg := avg self; sum := sum self; count := count self |} in
  let self2 := {| val := val self1; avg := avg self1;
                  sum := sum self1 + v * n; count := count self1 |} in
  let self3 := {| val := val self2; avg := avg self2;
                  sum := sum self2; count := count self2 + n |} in
  if decide (count self3 = 0) then Raised self3 ZeroDivisionError
  else Returned {| val := val self3; avg := sum self3 / count self3;
                   sum := sum self3; count := count self3 |} tt.

#[global] Instance Exn_eq_dec : EqDecision Exn.
Proof. solve_decision. Defined.
#[global] Instance Outcome_eq_dec {S A : Type} `{EqDecision S, EqDecision A} :
  EqDecision (Outcome S A).
Proof. solve_decision. Defined.
#[global] Instance Result_eq_dec {A : Type} `{EqDecision A} : EqDecision (Result A).
Proof. solve_decision. Defined.
#[global] Instance AverageMeter_eq_dec : EqDecision AverageMeter.
Proof. solve_decision. Defined.

(** The meter that [update(v, n)] leaves behind when it returns. *)
Definition updated (m : AverageMeter) (v n : Qc) : AverageMeter :=
  {| val := v; avg := (sum m + v * n) / (count m + n);
     sum := sum m + v * n; count := count m + n |}.

(** Closed equations between values that hold rationals are settled by
    evaluating their decision procedure. *)
Ltac by_evaluation := apply (bool_decide_unpack _); vm_compute; exact I.

(** ** Tensors *)

(** A 2-D float tensor: [rows] of width [ncols] (the width is kept apart, as a
    tensor with no row still has one). *)
Record Tensor2 : Type := mkTensor2 {
  ncols : nat;
  rows : list (list Qc)
}.

Definition wf_tensor (t : Tensor2) : Prop :=
  Forall (fun r => length r = ncols t) (rows t).

(** The embedding of a Python [int] into the floats. *)
Definition Qn (n : nat) : Qc := Qc_of_Z (Z.of_nat n).

Definition logit (row : list Qc) (i : nat) : Qc := nth i row 0.

(** What [torch.topk(k, largest=True, sorted=True)] promises for one row:
    [k] distinct positions, listed by descending score, none of them beaten
    by a position left out.  Which of several equal scores is picked is left
    open. *)
Definition descending (row : list Qc) (i j : nat) : Prop :=
  logit row j ≤ logit row i.

Record is_topk (row : list Qc) (k : nat) (idxs : list nat) : Prop := mk_is_topk {
  topk_length : length idxs = k;
  topk_nodup : NoDup idxs;
  topk_range : ∀ i, i ∈ idxs → (i < length row)%nat;
  topk_sorted : StronglySorted (descending row) idxs;
  topk_best : ∀ i j, i ∈ idxs → (j < length row)%nat → j ∉ idxs →
                     logit row j ≤ logit row i
}.

(** One implementation of it: a stable merge sort of the positions by
    descending score. *)
#[global] Instance descending_dec row i j : Decision (descending row i j).
Proof. unfold descending. apply _. Defined.

Definition topk_stable (k : nat) (row : list Qc) : list nat :=
  take k (merge_sort (descending row) (seq 0 (length row))).

(** [float()] of a boolean, and [sum()] of a float tensor. *)
Definition float_ (b : bool) : Qc := if b then 1 else 0.

Definition tensor_sum (xs : list Qc) : Qc := foldr Qcplus 0 xs.

(** Python's [max] of a tuple of ints: [ValueError] on the empty tuple. *)
Definition py_max (ks : list nat) : Result nat :=
  match ks with
  | [] => Err ValueError
  | k :: ks' => Ok (foldr Nat.max k ks')
  end.

(** Python's true division [x / n] by an int. *)
Definition py_div (x : Qc) (n : nat) : Result Qc :=
  if decide (n = 0%nat) then Err ZeroDivisionError else Ok (x / Qn n).

(** [m.t()] of a tensor whose rows have width [w]. *)
Definition t_ (w : nat) (m : list (list Z)) : list (list Z) :=
  (fun j => (fun row => nth j row 0%Z) <$> m) <$> seq 0 w.

(** [target.view(1, -1).expand_as(pred)] for [pred] of shape [(h, b)]: a row
    vector of length [b] is repeated [h] times, a single element is broadcast,
    any other length is a shape error. *)
Definition expand_as (target : list Z) (h b : nat) : Result (list (list Z)) :=
  if decide (length target = b) then Ok (replicate h target)
  else match target with
       | [t] => Ok (replicate h (replicate b t))
       | _ => Err RuntimeError
       end.

(** [a.eq(b)], elementwise. *)
Definition eq_ (a b : list (list Z)) : list (list bool) :=
  zip_with (zip_with (fun x y => bool_decide (x = y))) a b.

(** The number of samples whose label is in the sample's own set of
    positions [tops]. *)
Definition indicator (P : Prop) `{Decision P} : nat := if decide P then 1%nat else 0%nat.

Definition hits (tops : list (list nat)) (target : list Z) : nat :=
  sum_list (zip_with (fun top t => indicator (t ∈ Z.of_nat <$> top)) tops target).

(** ** [accuracy] (source lines 398-411) *)

Section Accuracy.

(** [Tensor.topk] along dimension 1, one row at a time. *)
Variable topk_row : nat → list Qc → list nat.

Definition tensor_topk (maxk : nat) (output : Tensor2) : Result (list (list Z)) :=
  if decide (maxk ≤ ncols output)%nat
  then Ok ((fun row => Z.of_nat <$> topk_row maxk row) <$> rows output)
  else Err RuntimeError.

Definition accuracy (output : Tensor2) (target : list Z) (topk : list nat)
  : Result (list Qc) :=
  maxk <-? py_max topk;
  let batch_size := length target in
  pred <-? tensor_topk maxk output;
  let pred := t_ maxk pred in
  tgt <-? expand_as target maxk (length (rows output));
  let correct := eq_ pred tgt in
  rmap (fun k =>
          let correct_k := tensor_sum (float_ <$> concat (take k correct)) in
          scale <-? py_div (Qn 100) batch_size;
          Ok (correct_k * scale))
       topk.

End Accuracy.

(** ** [reduce_tensor] (source lines 414-418) *)

(** [dist.all_reduce(rt, op=SUM)]: every participant contributes one value,
    all receive the sum. *)
Definition all_reduce_sum (contributions : list Qc) : Qc := tensor_sum contributions.

(** [rt /= args.world_size] after the all-reduce.  ([world_size] is the
    number of participants, at least the caller, so the divisor is not 0.) *)
Definition reduce_tensor (world_size : nat) (contributions : list Qc) : Qc :=
  let rt := all_reduce_sum contributions in
  rt / Qn world_size.

(** ** The sharded reader *)

(** One entry of the dataset, as the file reader yields it. *)
Record Sample : Type := mkSample {
  encoded : list Byte.byte;
  label : Z
}.

(** Modelled from the spec: the length of a shard, padding included,
    ceil(T/W) (spec 3; the reader is not part of the sources). *)
Definition shard_length (T W : nat) : nat := (T + W - 1) / W.

(** Modelled from the spec: where the slice of shard [S] begins.  Spec 4.1
    asks for slices that cover the dataset, every sample in exactly one of
    them; the slices are the consecutive ranges
    [floor(S*T/W), floor((S+1)*T/W)), the cut of [fn.readers.file]. *)
Definition shard_begin (T W S : nat) : nat := S * T / W.

(** The number of samples in the slice of shard [S]. *)
Definition shard_size (T W S : nat) : nat := shard_begin T W (S + 1) - shard_begin T W S.

(** Modelled from the spec: the entries of shard [S] of [W], each with its
    mark "ignore" (spec 3 and 4.1): the samples of the slice, unmarked, then
    marked padding up to the length ceil(T/W), so that every rank emits the
    same number of batches.  Padding repeats the last sample of the slice (for
    an empty slice the sample at its position). *)
Definition shard_entries (file_root : list Sample) (S W : nat) : list (Sample * bool) :=
  let T := length file_root in
  let first := shard_begin T W S in
  let own := take (shard_size T W S) (drop first file_root) in
  let filler := match last own with
                | Some s => Some s
                | None => file_root !! first
                end in
  ((fun s => (s, false)) <$> own)
  ++ match filler with
     | Some s => replicate (shard_length T W - length own) (s, true)
     | None => []
     end.

(** Modelled from the spec: the sharded reader behind [fn.readers.file] with
    [pad_last_batch=True] (NVIDIA DALI, not part of the sources).  Spec 4.1:
    it fails with [ConfigurationError] if W<1 or S>=W (a negative shard id is
    an invalid shard as well) and yields the entries of the shard otherwise. *)
Definition readers_file (file_root : list Sample) (shard_id num_shards : Z)
  : Result (list (Sample * bool)) :=
  if decide (num_shards < 1 ∨ shard_id < 0 ∨ num_shards ≤ shard_id)%Z
  then Err ConfigurationError
  else Ok (shard_entries file_root (Z.to_nat shard_id) (Z.to_nat num_shards)).

(** A batch as [validate] sees it: [data[0]["data"]] and [data[0]["label"]]. *)
Record Batch (Input : Type) : Type := mkBatch {
  data : list Input;
  labels : list Z
}.
Arguments mkBatch {Input} data labels.
Arguments data {Input} b.
Arguments labels {Input} b.

(** Cutting a sequence into batches of [n] consecutive items; what is left
    at the end forms a shorter batch ([LastBatchPolicy.PARTIAL], source line
    310).  [cur] holds the batch under construction, last item first. *)
Fixpoint chunk {A : Type} (n : nat) (cur : list A) (l : list A) : list (list A) :=
  match l with
  | [] => match cur with [] => [] | _ => [reverse cur] end
  | x :: l' =>
      if decide (S (length cur) = n) then reverse (x :: cur) :: chunk n [] l'
      else chunk n (x :: cur) l'
  end.

(** The running statistics of one rank inside [validate].  [batch_time]
    measures wall-clock time and is left out, with the progress line that
    prints it (source lines 356-371). *)
Record Meters : Type := mkMeters {
  losses : AverageMeter;
  top1 : AverageMeter;
  top5 : AverageMeter
}.

#[global] Instance Meters_eq_dec : EqDecision Meters.
Proof. solve_decision. Defined.

(** [meter.update(v, n)] called from a function that does not catch: the
    exception leaves the function, the meter is a local that is dropped. *)
Definition update_ (m : AverageMeter) (v n : Qc) : Result AverageMeter :=
  match update m v n with
  | Returned m' _ => Ok m'
  | Raised _ e => Err e
  end.

(** What a meter shows after a single [update(v, n)] from fresh. *)
Definition shows (m : AverageMeter) (v n : Qc) : Prop :=
  val m = v ∧ avg m = v ∧ sum m = v * n ∧ count m = n.

(** The plain (unweighted) mean. *)
Definition mean (vs : list Qc) : Qc := tensor_sum vs / Qn (length vs).

(** The schedule in which every loader hands over the given batches. *)
Definition delivering {X : Type} (steps : list (list X)) : list (list (Result X)) :=
  (fun bs : list X => Ok <$> bs) <$> steps.

Definition meters_nonneg (m : Meters) : Prop :=
  0 ≤ count (losses m) ∧ 0 ≤ count (top1 m) ∧ 0 ≤ count (top5 m).


(** The weight of rank [r] in a result of [validate_meters]. *)
Definition rank_count (r : nat) (res : Result (list Meters)) : option Qc :=
  match res with
  | Ok ms => (fun m => count (top1 m)) <$> ms !! r
  | Err _ => None
  end.

(** ** The evaluation pipeline and loop *)

Section Harness.

Variables Image Input : Type.
(** [fn.decoders.image]: [None] on bytes that are no image. *)
Variable decode : list Byte.byte → option Image.
(** [fn.resize(size=.., mode="not_smaller")]. *)
Variable resize : Z → Image → Image.
(** [fn.crop_mirror_normalize(crop=(c, c), mirror=..)]. *)
Variable crop_mirror_normalize : Z → bool → Image → Input.
(** The classifier and the loss, both opaque. *)
Variable model : list Input → Tensor2.
Variable criterion : Tensor2 → list Z → Qc.
Variable topk_row : nat → list Qc → list nat.

(** [create_dali_pipeline] with [is_training=False] (the only call, source
    line 308): the operators applied to one sample (lines 119-138).  A decoder
    error is not handled anywhere in the graph. *)
Definition preprocess (crop size : Z) (s : Sample) : Result (Input * Z) :=
  match decode (encoded s) with
  | None => Err CorruptImageError
  | Some images =>
      let images := resize size images in
      let mirror := false in
      Ok (crop_mirror_normalize crop mirror images, label s)
  end.

(** [create_dali_pipeline] (lines 88-138): the reader first, then the
    operators on what it yields, padding included; the mark of an entry is
    the reader's. *)
Definition create_dali_pipeline (data_dir : list Sample) (crop size : Z)
    (shard_id num_shards : Z) : Result (list (Result (Input * Z) * bool)) :=
  shard <-? readers_file data_dir shard_id num_shards;
  Ok ((fun entry => (preprocess crop size entry.1, entry.2)) <$> shard).

(** Modelled from the spec: [DALIClassificationIterator(pipe,
    reader_name="Reader", last_batch_policy=PARTIAL)] (NVIDIA DALI, not part
    of the sources).  One item per batch of the shard; running the pipeline
    on a batch, padding included, raises what the first failing entry of it
    raised; the entries marked "ignore" are left out of the batch that is
    handed over, so that they are "excluded from any metric weight
    downstream" (spec 4.1). *)
Definition DALIClassificationIterator (batch_size : nat)
    (pipe : list (Result (Input * Z) * bool)) : list (Result (Batch Input)) :=
  (fun entries =>
     xs <-? rmap (fun entry : Result (Input * Z) * bool =>
                    x <-? entry.1; Ok (x, entry.2)) entries;
     let kept := (filter (fun x : Input * Z * bool => x.2 = false) xs).*1 in
     Ok (mkBatch kept.*1 kept.*2))
    <$> chunk batch_size [] pipe.

(** [val_loader] as [main] builds it (lines 298-310): crop 224, size 256. *)
Definition val_loader (valdir : list Sample) (batch_size : nat)
    (local_rank world_size : Z) : Result (list (Result (Batch Input))) :=
  pipe <-? create_dali_pipeline valdir 224 256 local_rank world_size;
  Ok (DALIClassificationIterator batch_size pipe).

(** The body of the loop up to the reduction (lines 332-342).
    ([val_loader_len], line 334, only feeds the progress line.) *)
Definition forward (b : Batch Input) : Result (Qc * Qc * Qc) :=
  let output := model (data b) in
  let loss := criterion output (labels b) in
  res <-? accuracy topk_row output (labels b) [1; 5]%nat;
  match res with
  | [prec1; prec5] => Ok (loss, prec1, prec5)
  | _ => Err ValueError
  end.

(** What one rank does with the next item of its loader: an exception of the
    iterator leaves [validate], there is no handler. *)
Definition next_forward (item : Result (Batch Input))
  : Result (Batch Input * (Qc * Qc * Qc)) :=
  b <-? item; out <-? forward b; Ok (b, out).

(** Lines 344-353 on one rank; [peers] holds what every rank (this one
    included) contributes to the three all-reduces of this iteration. *)
Definition record_batch (distributed : bool) (world_size : nat)
    (peers : list (Qc * Qc * Qc)) (m : Meters)
    (mine : Batch Input * (Qc * Qc * Qc)) : Result Meters :=
  let '(b, (loss, prec1, prec5)) := mine in
  let reduced_loss :=
    if distributed then reduce_tensor world_size (peers.*1.*1) else loss in
  let prec1 := if distributed then reduce_tensor world_size (peers.*1.*2) else prec1 in
  let prec5 := if distributed then reduce_tensor world_size (peers.*2) else prec5 in
  let n := Qn (length (data b)) in
  losses' <-? update_ (losses m) reduced_loss n;
  top1' <-? update_ (top1 m) prec1 n;
  top5' <-? update_ (top5 m) prec5 n;
  Ok {| losses := losses'; top1 := top1'; top5 := top5' |}.

(** One iteration of the loop on all ranks at once: [items] holds the next
    item of every rank's loader, [ms] every rank's meters.  An exception on
    any rank ends the run. *)
Definition validate_step (distributed : bool) (ms : list Meters)
    (items : list (Result (Batch Input))) : Result (list Meters) :=
  outs <-? rmap next_forward items;
  let world_size := length items in
  rmap (fun '(m, mine) => record_batch distributed world_size (outs.*2) m mine)
       (zip ms outs).

Fixpoint validate_loop (distributed : bool) (ms : list Meters)
    (steps : list (list (Result (Batch Input)))) : Result (list Meters) :=
  match steps with
  | [] => Ok ms
  | items :: steps' =>
      ms' <-? validate_step distributed ms items;
      validate_loop distributed ms' steps'
  end.

(** The meters of all [world_size] ranks when the loop of [validate] ends
    (lines 320-357), each rank starting from fresh meters. *)
Definition validate_meters (distributed : bool) (world_size : nat)
    (steps : list (list (Result (Batch Input)))) : Result (list Meters) :=
  let fresh := {| losses := AverageMeter_init; top1 := AverageMeter_init;
                  top5 := AverageMeter_init |} in
  validate_loop distributed (replicate world_size fresh) steps.

(** [validate] (lines 320-376): every rank returns [[top1.avg, top5.avg]]. *)
Definition validate (distributed : bool) (world_size : nat)
    (steps : list (list (Result (Batch Input)))) : Result (list (Qc * Qc)) :=
  ms <-? validate_meters distributed world_size steps;
  Ok ((fun m => (avg (top1 m), avg (top5 m))) <$> ms).

(** The ranks advance together: iteration [i] takes the [i]-th item of every
    rank's loader ([n] items each; the padded reader gives every rank the same
    number of batches). *)
Fixpoint lockstep {X : Type} (n : nat) (loaders : list (list X)) : list (list X) :=
  match n with
  | O => []
  | S n' => omap head loaders :: lockstep n' (tail <$> loaders)
  end.

(** The evaluation run of [main] (lines 298-317) on ranks [0 .. world_size-1],
    rank [r] being started with [local_rank = r]. *)
Definition evaluate (distributed : bool) (valdir : list Sample) (batch_size : nat)
    (world_size : nat) : Result (list Meters) :=
  loaders <-? rmap (fun r => val_loader valdir batch_size (Z.of_nat r) (Z.of_nat world_size))
                   (seq 0 world_size);
  let n := match loaders with [] => O | l :: _ => length l end in
  validate_meters distributed world_size (lockstep n loaders).

(** A batch on which the loop body does not raise: it is not empty, the
    classifier scores at least five classes, one row per label. *)
Definition wf_batch (b : Batch Input) : Prop :=
  data b ≠ [] ∧ labels b ≠ [] ∧ (5 ≤ ncols (model (data b)))%nat
  ∧ length (labels b) = length (rows (model (data b))).

(** The loss of a batch. *)
Definition batch_loss (b : Batch Input) : Qc := criterion (model (data b)) (labels b).

(** What [forward] returns where it returns. *)
Definition forward_value (b : Batch Input) : Qc * Qc * Qc :=
  match forward b with
  | Ok out => out
  | Err _ => (0, 0, 0)
  end.

(** The top-1 and top-5 accuracy of a batch. *)
Definition batch_prec1 (b : Batch Input) : Qc := (forward_value b).1.2.
Definition batch_prec5 (b : Batch Input) : Qc := (forward_value b).2.

(** The meters of a rank after an iteration that does not raise, [bs] being
    the batches of all ranks in that iteration. *)
Definition recorded (distributed : bool) (bs : list (Batch Input)) (m : Meters)
    (b : Batch Input) : Meters :=
  let peers := forward_value <$> bs in
  let n := Qn (length (data b)) in
  let pick (mine : Qc) (theirs : list Qc) :=
    if distributed then reduce_tensor (length bs) theirs else mine in
  {| losses := updated (losses m) (pick (forward_value b).1.1 (peers.*1.*1)) n;
     top1 := updated (top1 m) (pick (forward_value b).1.2 (peers.*1.*2)) n;
     top5 := updated (top5 m) (pick (forward_value b).2 (peers.*2)) n |}.

(** The number of samples handed to rank [r] over the iterations [steps]. *)
Definition delivered (steps : list (list (Batch Input))) (r : nat) : nat :=
  sum_list ((fun bs => from_option (fun b => length (data b)) 0%nat (bs !! r)) <$> steps).

End Harness.

Arguments preprocess {Image Input} decode resize crop_mirror_normalize crop size s.
Arguments create_dali_pipeline {Image Input} decode resize crop_mirror_normalize
  data_dir crop size shard_id num_shards.
Arguments DALIClassificationIterator {Input} batch_size pipe.
Arguments val_loader {Image Input} decode resize crop_mirror_normalize
  valdir batch_size local_rank world_size.
Arguments forward {Input} model criterion topk_row b.
Arguments next_forward {Input} model criterion topk_row item.
Arguments record_batch {Input} distributed world_size peers m mine.
Arguments validate_step {Input} model criterion topk_row distributed ms items.
Arguments validate_loop {Input} model criterion topk_row distributed ms steps.
Arguments validate_meters {Input} model criterion topk_row distributed world_size steps.
Arguments validate {Input} model criterion topk_row distributed world_size steps.
Arguments wf_batch {Input} model b.
Arguments batch_loss {Input} model criterion b.
Arguments forward_value {Input} model criterion topk_row b.
Arguments batch_prec1 {Input} model criterion topk_row b.
Arguments batch_prec5 {Input} model criterion topk_row b.
Arguments recorded {Input} model criterion topk_row distributed bs m b.
Arguments delivered {Input} steps r.
Arguments evaluate {Image Input} decode resize crop_mirror_normalize model criterion
  topk_row distributed valdir batch_size world_size.

(** ** Checkpoint resume (source lines 266-281) *)

Section Resume.

(** A state dict of the model or of the optimizer, opaque. *)
Variable StateDict : Type.

(** Values found in a checkpoint dictionary: numbers, a state dict that the
    [load_state_dict] it is passed to accepts, and any other object, a state
    dict that does not fit the model or the optimizer included. *)
Inductive PyVal : Type :=
| VInt (z : Z)
| VFloat (q : Qc)
| VState (sd : StateDict)
| VOther.

(** What a path names: a directory, or a regular file; [torch.load] either
    unpickles the file into a dictionary or raises. *)
Inductive Inode : Type :=
| Directory
| RegularFile (unpickled : option (gmap string PyVal)).

(** What [resume] writes: [args.start_epoch], the global [best_prec1], the
    model and the optimizer. *)
Record RunState : Type := mkRunState {
  start_epoch : PyVal;
  best_prec1 : PyVal;
  model_state : StateDict;
  optimizer_state : StateDict
}.

Definition isfile (fs : gmap string Inode) (path : string) : bool :=
  match fs !! path with
  | Some (RegularFile _) => true
  | _ => false
  end.

(** [torch.load(path)] on a regular file: the dictionary it holds, or the
    exception of [torch.load], of whatever class. *)
Definition torch_load (fs : gmap string Inode) (path : string)
  : Result (gmap string PyVal) :=
  match fs !! path with
  | Some (RegularFile (Some d)) => Ok d
  | _ => Err TorchLoadError
  end.

(** [checkpoint[key]]. *)
Definition getitem (d : gmap string PyVal) (key : string) : Result PyVal :=
  match d !! key with
  | Some v => Ok v
  | None => Err (KeyError key)
  end.

(** [load_state_dict(v)], which is strict: it returns for a state dict that
    fits and raises, an exception of whatever class, for every other object. *)
Definition as_state_dict (v : PyVal) : Result StateDict :=
  match v with
  | VState sd => Ok sd
  | _ => Err LoadStateDictError
  end.

(** Running a fallible step inside a function that mutates [st]: on an
    exception the mutations made so far stay. *)
Definition try_ {A : Type} (st : RunState) (r : Result A)
    (k : A → Outcome RunState unit) : Outcome RunState unit :=
  match r with
  | Ok a => k a
  | Err e => Raised st e
  end.

(** The local function [resume] of [main]. *)
Definition resume (fs : gmap string Inode) (args_resume : string) (st : RunState)
  : Outcome RunState unit :=
  if isfile fs args_resume then
    try_ st (torch_load fs args_resume) (fun checkpoint =>
    try_ st (getitem checkpoint "epoch") (fun epoch =>
    let st := {| start_epoch := epoch; best_prec1 := best_prec1 st;
                 model_state := model_state st;
                 optimizer_state := optimizer_state st |} in
    try_ st (getitem checkpoint "best_prec1") (fun best =>
    let st := {| start_epoch := start_epoch st; best_prec1 := best;
                 model_state := model_state st;
                 optimizer_state := optimizer_state st |} in
    try_ st (sd <-? getitem checkpoint "state_dict"; as_state_dict sd) (fun sd =>
    let st := {| start_epoch := start_epoch st; best_prec1 := best_prec1 st;
                 model_state := sd;
                 optimizer_state := optimizer_state st |} in
    try_ st (sd <-? getitem checkpoint "optimizer"; as_state_dict sd) (fun sd =>
    let st := {| start_epoch := start_epoch st; best_prec1 := best_prec1 st;
                 model_state := model_state st;
                 optimizer_state := sd |} in
    Returned st tt)))))
  else Returned st tt.

(** [if args.resume: resume()] (lines 266-281). *)
Definition main_resume (fs : gmap string Inode) (args_resume : string) (st : RunState)
  : Outcome RunState unit :=
  if decide (args_resume = EmptyString) then Returned st tt
  else resume fs args_resume st.

End Resume.

Arguments VInt {StateDict} z.
Arguments VFloat {StateDict} q.
Arguments VState {StateDict} sd.
Arguments VOther {StateDict}.
Arguments Directory {StateDict}.
Arguments RegularFile {StateDict} unpickled.
Arguments mkRunState {StateDict}.
Arguments start_epoch {StateDict} r.
Arguments best_prec1 {StateDict} r.
Arguments model_state {StateDict} r.
Arguments optimizer_state {StateDict} r.
Arguments resume {StateDict} fs args_resume st.
Arguments main_resume {StateDict} fs args_resume st.

(** ** Sequences of updates *)

(** [for (v, n) in vns: meter.update(v, n)]; the first exception ends the
    loop and leaves the meter as the failing call left it. *)
Fixpoint update_each (m : AverageMeter) (vns : list (Qc * Qc)) : Outcome AverageMeter unit :=
  match vns with
  | [] => Returned m tt
  | (v, n) :: vns' =>
      match update m v n with
      | Returned m' _ => update_each m' vns'
      | Raised m' e => Raised m' e
      end
  end.

(** The sum of [v * n] and the sum of [n] over a list of value-weight pairs. *)
Definition weighted_sum (vns : list (Qc * Qc)) : Qc :=
  tensor_sum ((fun vn => vn.1 * vn.2) <$> vns).

Definition total_weight (vns : list (Qc * Qc)) : Qc := tensor_sum (vns.*2).

(** A fallible computation that returns. *)
Definition returns {A : Type} (r : Result A) : Prop := ∃ a, r = Ok a.

(** Label [t] names the position of the one strictly highest score of [row]. *)
Definition strictly_best (row : list Qc) (t : Z) : Prop :=
  ∃ j, t = Z.of_nat j ∧ (j < length row)%nat
       ∧ ∀ i, (i < length row)%nat → i ≠ j → logit row i < logit row j.


(** ** What [validate] accumulates *)

Section Scores.

Context {Input : Type}.
Variable model : list Input → Tensor2.
Variable topk_row : nat → list Qc → list nat.

(** A batch as the loader and the classifier produce it: as many labels as
    inputs, one row of at least five logits per input. *)
Definition tensor_batch (b : Batch Input) : Prop :=
  wf_batch model b ∧ wf_tensor (model (data b)) ∧ length (data b) = length (labels b).

(** The number of samples of a batch whose label is among the first [k] of
    the five positions [topk] returns for the sample. *)
Definition batch_hits (k : nat) (b : Batch Input) : nat :=
  hits ((fun row => take k (topk_row 5 row)) <$> rows (model (data b))) (labels b).

Definition total_hits (k : nat) (batches : list (Batch Input)) : nat :=
  sum_list (batch_hits k <$> batches).

Definition total_samples (batches : list (Batch Input)) : nat :=
  sum_list ((fun b => length (data b)) <$> batches).

(** The value a rank passes to [update] for a quantity [sel] of the batch:
    its own in single-process mode, the reduced one in distributed mode. *)
Definition fed_value (distributed : bool) (sel : Batch Input → Qc)
    (bs : list (Batch Input)) (b : Batch Input) : Qc :=
  if distributed then reduce_tensor (length bs) (sel <$> bs) else sel b.

(** The sum of value times weight that rank [r] passes to the meter of [sel]
    over the iterations [steps]. *)
Definition fed_sum (distributed : bool) (sel : Batch Input → Qc)
    (steps : list (list (Batch Input))) (r : nat) : Qc :=
  tensor_sum ((fun bs => from_option
                           (fun b => fed_value distributed sel bs b * Qn (length (data b)))
                           0 (bs !! r)) <$> steps).

End Scores.

Arguments tensor_batch {Input} model b.
Arguments batch_hits {Input} model topk_row k b.
Arguments total_hits {Input} model topk_row k batches.
Arguments total_samples {Input} batches.
Arguments fed_value {Input} distributed sel bs b.
Arguments fed_sum {Input} distributed sel steps r.

(** How a meter [a'] has moved from [a]: by [s] in [sum] and by [c] in
    [count], with [avg] recomputed if an update took place. *)
Definition tracks (a a' : AverageMeter) (s : Qc) (c : nat) (updated_once : Prop) : Prop :=
  sum a' = sum a + s ∧ count a' = count a + Qn c
  ∧ (updated_once → avg a' = sum a' / count a').

(** ** [main] (source lines 141-317) *)

(** The attributes of [args] that [main] reads ([parse], lines 23-77);
    [print_freq], [prof], [epochs] and [keep_batchnorm_fp32] are never read
    beyond a progress line. *)
Record Args : Type := mkArgs {
  arg_data : list string;
  arg_arch : string;
  arg_workers : Z;
  arg_start_epoch : Z;
  arg_batch_size : Z;
  arg_lr : Qc;
  arg_momentum : Qc;
  arg_weight_decay : Qc;
  arg_resume : string;
  arg_evaluate : bool;
  arg_pretrained : bool;
  arg_dali_cpu : bool;
  arg_deterministic : bool;
  arg_local_rank : Z;
  arg_channels_last : bool;
  arg_test : bool;
  arg_bit : Z;
  arg_init : string;
  arg_unsigned : bool
}.

(** The preset arguments of test mode (lines 148-156); [start_epoch] is part
    of the state, see [main_body]. *)
Definition test_mode (args : Args) : Args :=
  {| arg_data := ["/data/imagenet/train/"; "/data/imagenet/val/"];
     arg_arch := "resnet50";
     arg_workers := arg_workers args;
     arg_start_epoch := 0;
     arg_batch_size := 64;
     arg_lr := arg_lr args;
     arg_momentum := arg_momentum args;
     arg_weight_decay := arg_weight_decay args;
     arg_resume := arg_resume args;
     arg_evaluate := arg_evaluate args;
     arg_pretrained := arg_pretrained args;
     arg_dali_cpu := arg_dali_cpu args;
     arg_deterministic := arg_deterministic args;
     arg_local_rank := arg_local_rank args;
     arg_channels_last := arg_channels_last args;
     arg_test := arg_test args;
     arg_bit := arg_bit args;
     arg_init := arg_init args;
     arg_unsigned := arg_unsigned args |}.

(** The keyword arguments of the call of [create_dali_pipeline] (lines 298-308). *)
Record PipelineArgs : Type := mkPipelineArgs {
  kw_batch_size : Z;
  kw_num_threads : Z;
  kw_device_id : Z;
  kw_seed : Z;
  kw_data_dir : string;
  kw_crop : Z;
  kw_size : Z;
  kw_dali_cpu : bool;
  kw_shard_id : Z;
  kw_num_shards : Z;
  kw_is_training : bool
}.

(** [posixpath.join(a, b)]. *)
Fixpoint ends_with_sep (s : string) : bool :=
  match s with
  | EmptyString => false
  | String c s' =>
      if bool_decide (s' = EmptyString) then bool_decide (String c EmptyString = "/")
      else ends_with_sep s'
  end.

Definition starts_with_sep (s : string) : bool :=
  match s with
  | String c _ => bool_decide (String c EmptyString = "/")
  | EmptyString => false
  end.

Definition path_join (a b : string) : string :=
  if starts_with_sep b then b
  else if bool_decide (a = EmptyString) || ends_with_sep a then a +:+ b
  else a +:+ "/" +:+ b.

(** How [main] ends with an exception, by the place that raised it: one of
    its own statements ([raise Exception(msg)] on line 159, the [ValueError]
    of [int] on line 164, the [assert] of line 200, [exit()] on line 259,
    [raise RuntimeError(msg)] on line 290); the reading of a checkpoint
    ([torch.load], [checkpoint[key]], [load_state_dict], with the exceptions
    of [Exn]); or another external call, whose exception is a code that is
    not looked into. *)
Inductive MainExn : Type :=
| Exception (msg : string)
| IntValueError (literal : string)
| AssertionError (msg : string)
| SystemExit
| MainRuntimeError (msg : string)
| Builtin (e : Exn)
| Foreign (code : nat).

Section Main.

Variable StateDict : Type.

(** The calls [main] makes into torch, the model zoo, the operating system,
    DALI and [validate], with the arguments that come from [args]. *)
Inductive Call : Type :=
| ManualSeed (seed : Z)
| SetPrintoptions
| SetDevice (gpu : Z)
| InitProcessGroup
| GetWorldSize
| CreateModel (arch : string) (pretrained : bool) (bit : Z)
| ToCuda (memory_format : option bool)
| MakeSGD (lr momentum weight_decay : Qc)
| WrapDDP (gpu : Z)
| Makedirs (path : string)
| ShowParams
| MakeCriterion
| CreatePipeline (kw : PipelineArgs)
| BuildPipeline
| MakeIterator
| UnsignedSpikes
| Validate (model : StateDict).

(** The process environment and the libraries, as far as [main] depends on
    them: [os.environ], [int] on a string, the size of the process group,
    [torch.backends.cudnn.enabled], whether torch has memory formats, the
    state of a newly built model and of a new optimizer, and which external
    calls raise. *)
Record World : Type := mkWorld {
  environ : gmap string string;
  py_int : string → option Z;
  get_world_size : Z;
  cudnn_enabled : bool;
  has_memory_formats : bool;
  zoo : string → bool → Z → StateDict;
  sgd_state : StateDict;
  raises : Call → option nat
}.

(** What a run of [main] leaves behind: the external calls in the order
    they were made, [args.start_epoch], the global [best_prec1] and the
    file system. *)
Record MainState : Type := mkMainState {
  calls : list Call;
  args_start_epoch : PyVal StateDict;
  global_best_prec1 : PyVal StateDict;
  disk : gmap string (Inode StateDict)
}.

Inductive Ended (A : Type) : Type :=
| Finished (a : A) (s : MainState)
| Aborted (e : MainExn) (s : MainState).
Arguments Finished {A} a s.
Arguments Aborted {A} e s.

Definition Run (A : Type) : Type := MainState → Ended A.

Definition ret {A : Type} (a : A) : Run A := fun s => Finished a s.

Definition raise {A : Type} (e : MainExn) : Run A := fun s => Aborted e s.

Definition bind {A B : Type} (m : Run A) (k : A → Run B) : Run B :=
  fun s => match m s with
           | Finished a s' => k a s'
           | Aborted e s' => Aborted e s'
           end.

Local Notation "x <-! m ; k" := (bind m (fun x => k))
  (at level 100, m at next level, right associativity, only parsing).

Definition when (b : bool) (m : Run unit) : Run unit := if b then m else ret tt.

Definition log (c : Call) (s : MainState) : MainState :=
  {| calls := calls s ++ [c]; args_start_epoch := args_start_epoch s;
     global_best_prec1 := global_best_prec1 s; disk := disk s |}.

Variable w : World.

(** An external call: it is made, and it returns or raises. *)
Definition call (c : Call) : Run unit :=
  fun s => match raises w c with
           | Some code => Aborted (Foreign code) (log c s)
           | None => Finished tt (log c s)
           end.

Definition set_start_epoch (v : PyVal StateDict) : Run unit :=
  fun s => Finished tt {| calls := calls s; args_start_epoch := v;
                          global_best_prec1 := global_best_prec1 s; disk := disk s |}.

Definition get_disk : Run (gmap string (Inode StateDict)) :=
  fun s => Finished (disk s) s.

(** [os.path.exists(path)]. *)
Definition path_exists (path : string) : Run bool :=
  fun s => Finished (bool_decide (is_Some (disk s !! path))) s.

(** [os.makedirs(path)] on a path that does not exist. *)
Definition os_makedirs (path : string) : Run unit :=
  _ <-! call (Makedirs path);
  fun s => Finished tt {| calls := calls s; args_start_epoch := args_start_epoch s;
                          global_best_prec1 := global_best_prec1 s;
                          disk := <[path := Directory]> (disk s) |}.

(** A fallible step of the parts modelled above. *)
Definition lift {A : Type} (r : Result A) : Run A :=
  match r with
  | Ok a => ret a
  | Err e => raise (Builtin e)
  end.

(** [if args.resume: resume()] on the model and the optimizer [main] holds:
    what [resume] has assigned stays, also when it raises. *)
Definition run_resume (path : string) (model optimizer : StateDict)
  : Run (StateDict * StateDict) :=
  fun s =>
    let st := {| start_epoch := args_start_epoch s; best_prec1 := global_best_prec1 s;
                 model_state := model; optimizer_state := optimizer |} in
    let leave st' := {| calls := calls s; args_start_epoch := start_epoch st';
                        global_best_prec1 := best_prec1 st'; disk := disk s |} in
    match main_resume (disk s) path st with
    | Returned st' _ => Finished (model_state st', optimizer_state st') (leave st')
    | Raised st' e => Aborted (Builtin e) (leave st')
    end.

(** [main] after [args = parse()] (lines 146-317).  Printing and the
    assignments to [cudnn.benchmark] and [cudnn.deterministic] are left out.
    The test of line 158, [if not len(args.data)], is the [match] on
    [args.data]: past it the list is [dir :: more], which nothing changes, so
    that [args.data[0]] is [dir] and, when [len(args.data)] is not 1,
    [args.data[1]] is the head of [more] (lines 284-287). *)
Definition main_body (args : Args) : Run unit :=
  args <-! (if arg_test args
            then (_ <-! set_start_epoch (VInt 0); ret (test_mode args))
            else ret args);
  match arg_data args with
  | [] => raise (Exception "error: No data set provided")
  | dir :: more =>
  distributed <-! match environ w !! "WORLD_SIZE" with
                  | None => ret false
                  | Some size =>
                      match py_int w size with
                      | None => raise (IntValueError size)
                      | Some n => ret (bool_decide (1 ≤ n)%Z)
                      end
                  end;
  _ <-! when (arg_deterministic args)
          (_ <-! call (ManualSeed (arg_local_rank args)); call SetPrintoptions);
  device <-! (if distributed : bool
              then (_ <-! call (SetDevice (arg_local_rank args));
                    _ <-! call InitProcessGroup;
                    _ <-! call GetWorldSize;
                    ret (arg_local_rank args, get_world_size w))
              else ret (0%Z, 1%Z));
  let gpu := device.1 in
  let world_size := device.2 in
  if negb (cudnn_enabled w)
  then raise (AssertionError "Amp requires cudnn backend to be enabled.")
  else
  _ <-! call (CreateModel (arg_arch args) (arg_pretrained args) (arg_bit args));
  let model := zoo w (arg_arch args) (arg_pretrained args) (arg_bit args) in
  _ <-! call (ToCuda (if has_memory_formats w then Some (arg_channels_last args) else None));
  let lr := arg_lr args * Qc_of_Z (arg_batch_size args * world_size) / Qn 256 in
  _ <-! call (MakeSGD lr (arg_momentum args) (arg_weight_decay args));
  let optimizer := sgd_state w in
  _ <-! when distributed (call (WrapDDP gpu));
  there <-! path_exists "result";
  _ <-! when (negb there) (os_makedirs "result");
  let fdir := "result/" +:+ arg_arch args +:+ "_" +:+ pretty (arg_bit args) +:+ "bit" in
  there <-! path_exists fdir;
  _ <-! when (negb there) (os_makedirs fdir);
  model <-! (if bool_decide (arg_init args = EmptyString) then ret model
             else
               fs <-! get_disk;
               if isfile _ fs (arg_init args)
               then (checkpoint <-! lift (torch_load _ fs (arg_init args));
                     sd <-! lift (v <-? getitem _ checkpoint "state_dict"; as_state_dict _ v);
                     _ <-! call ShowParams;
                     ret sd)
               else raise SystemExit);
  _ <-! call MakeCriterion;
  resumed <-! run_resume (arg_resume args) model optimizer;
  let model := resumed.1 in
  let valdir := match more with
                | [] => path_join dir "val"
                | dir' :: _ => dir'
                end in
  if bool_decide (arg_arch args = "inception_v3")
  then raise (MainRuntimeError "Currently, inception_v3 is not supported by this example.")
  else
  _ <-! call (CreatePipeline
                {| kw_batch_size := arg_batch_size args;
                   kw_num_threads := arg_workers args;
                   kw_device_id := arg_local_rank args;
                   kw_seed := 12 + arg_local_rank args;
                   kw_data_dir := valdir;
                   kw_crop := 224;
                   kw_size := 256;
                   kw_dali_cpu := arg_dali_cpu args;
                   kw_shard_id := arg_local_rank args;
                   kw_num_shards := world_size;
                   kw_is_training := false |});
  _ <-! call BuildPipeline;
  _ <-! call MakeIterator;
  _ <-! when (arg_unsigned args) (call UnsignedSpikes);
  when (arg_evaluate args) (call (Validate model))
  end.

(** [main()] for the parsed arguments [args] on the file system [fs]. *)
Definition main (args : Args) (fs : gmap string (Inode StateDict)) : Ended unit :=
  main_body args {| calls := []; args_start_epoch := VInt (arg_start_epoch args);
                    global_best_prec1 := VInt 0; disk := fs |}.

End Main.

Arguments Finished {StateDict A} a s.
Arguments Aborted {StateDict A} e s.
Arguments calls {StateDict} m.
Arguments args_start_epoch {StateDict} m.
Arguments global_best_prec1 {StateDict} m.
Arguments disk {StateDict} m.
Arguments mkMainState {StateDict} calls args_start_epoch global_best_prec1 disk.
Arguments ManualSeed {StateDict} seed.
Arguments SetPrintoptions {StateDict}.
Arguments SetDevice {StateDict} gpu.
Arguments InitProcessGroup {StateDict}.
Arguments GetWorldSize {StateDict}.
Arguments CreateModel {StateDict} arch pretrained bit.
Arguments ToCuda {StateDict} memory_format.
Arguments MakeSGD {StateDict} lr momentum weight_decay.
Arguments WrapDDP {StateDict} gpu.
Arguments Makedirs {StateDict} path.
Arguments ShowParams {StateDict}.
Arguments MakeCriterion {StateDict}.
Arguments CreatePipeline {StateDict} kw.
Arguments BuildPipeline {StateDict}.
Arguments MakeIterator {StateDict}.
Arguments UnsignedSpikes {StateDict}.
Arguments Validate {StateDict} model.
Arguments environ {StateDict} w.
Arguments py_int {StateDict} w s.
Arguments get_world_size {StateDict} w.
Arguments cudnn_enabled {StateDict} w.
Arguments has_memory_formats {StateDict} w.
Arguments zoo {StateDict} w arch pretrained bit.
Arguments sgd_state {StateDict} w.
Arguments raises {StateDict} w c.
Arguments ret {StateDict A} a s.
Arguments raise {StateDict A} e s.
Arguments bind {StateDict A B} m k s.
Arguments when {StateDict} b m s.
Arguments log {StateDict} c s.
Arguments call {StateDict} w c s.
Arguments set_start_epoch {StateDict} v s.
Arguments get_disk {StateDict} s.
Arguments path_exists {StateDict} path s.
Arguments os_makedirs {StateDict} w path s.
Arguments lift {StateDict A} r s.
Arguments run_resume {StateDict} path model optimizer s.
Arguments main_body {StateDict} w args s.
Arguments main {StateDict} w args fs.

(** The state a run ends in, and whether it returned. *)
Definition ended_state {StateDict A : Type} (r : Ended StateDict A) : MainState StateDict :=
  match r with
  | Finished _ s => s
  | Aborted _ s => s
  end.

Definition finished {StateDict A : Type} (r : Ended StateDict A) : Prop :=
  ∃ a s, r = Finished a s.

(** [args.distributed] and [args.world_size] as [main] derives them from
    the environment. *)
Definition distributed_of {StateDict : Type} (w : World StateDict) : bool :=
  match environ w !! "WORLD_SIZE" with
  | Some size => from_option (fun n => bool_decide (1 ≤ n)%Z) false (py_int w size)
  | None => false
  end.

Definition world_size_of {StateDict : Type} (w : World StateDict) : Z :=
  if distributed_of w then get_world_size w else 1%Z.

(** The arguments in force after the test-mode presets. *)
Definition effective (args : Args) : Args :=
  if arg_test args then test_mode args else args.

(** [fdir] (line 245). *)
Definition fdir_of (args : Args) : string :=
  "result/" +:+ arg_arch args +:+ "_" +:+ pretty (arg_bit args) +:+ "bit".

(** [valdir] (lines 284-287) for a non-empty [args.data]. *)
Definition valdir_of (args : Args) : string :=
  match arg_data args with
  | [dir] => path_join dir "val"
  | _ :: dir :: _ => dir
  | [] => EmptyString
  end.

(** Hoare triples for [Run]: from a state in [P], [m] returns [a] in a state
    in [Q a] or raises [e] in a state in [E e]. *)
Definition hoare {StateDict A : Type} (P : MainState StateDict → Prop)
    (m : Run StateDict A) (Q : A → MainState StateDict → Prop)
    (E : MainExn → MainState StateDict → Prop) : Prop :=
  ∀ s, P s → match m s with
             | Finished a s' => Q a s'
             | Aborted e s' => E e s'
             end.

(** ** What [main] may do *)

Section MainSpec.

Context {StateDict : Type}.
Variable w : World StateDict.
Variable args : Args.
Variable fs : gmap string (Inode StateDict).

(** The keyword arguments [main] passes to [create_dali_pipeline]. *)
Definition pipeline_kw : PipelineArgs :=
  let a := effective args in
  {| kw_batch_size := arg_batch_size a;
     kw_num_threads := arg_workers a;
     kw_device_id := arg_local_rank a;
     kw_seed := 12 + arg_local_rank a;
     kw_data_dir := valdir_of a;
     kw_crop := 224;
     kw_size := 256;
     kw_dali_cpu := arg_dali_cpu a;
     kw_shard_id := arg_local_rank a;
     kw_num_shards := world_size_of w;
     kw_is_training := false |}.

(** The state the model has after [--init] has been dealt with: that of the
    newly built model, or the [state_dict] of the initialisation file. *)
Definition init_model (model : StateDict) : Prop :=
  let a := effective args in
  if decide (arg_init a = EmptyString)
  then model = zoo w (arg_arch a) (arg_pretrained a) (arg_bit a)
  else ∃ checkpoint, fs !! arg_init a = Some (RegularFile (Some checkpoint))
                     ∧ checkpoint !! "state_dict" = Some (VState model).

(** The external calls of [main], each with the condition under which it
    is made and the arguments it is made with. *)
Definition call_site (c : Call StateDict) : Prop :=
  let a := effective args in
  match c with
  | ManualSeed seed => arg_deterministic a = true ∧ seed = arg_local_rank a
  | SetPrintoptions => arg_deterministic a = true
  | SetDevice gpu => distributed_of w = true ∧ gpu = arg_local_rank a
  | InitProcessGroup => distributed_of w = true
  | GetWorldSize => distributed_of w = true
  | CreateModel arch pretrained bit =>
      arch = arg_arch a ∧ pretrained = arg_pretrained a ∧ bit = arg_bit a
  | ToCuda memory_format =>
      memory_format = (if has_memory_formats w then Some (arg_channels_last a) else None)
  | MakeSGD lr momentum weight_decay =>
      lr = arg_lr a * Qc_of_Z (arg_batch_size a * world_size_of w) / Qn 256
      ∧ momentum = arg_momentum a ∧ weight_decay = arg_weight_decay a
  | WrapDDP gpu => distributed_of w = true ∧ gpu = arg_local_rank a
  | Makedirs path => fs !! path = None ∧ (path = "result" ∨ path = fdir_of a)
  | ShowParams => arg_init a ≠ EmptyString ∧ isfile _ fs (arg_init a) = true
  | MakeCriterion => True
  | CreatePipeline kw => arg_arch a ≠ "inception_v3" ∧ kw = pipeline_kw
  | BuildPipeline => arg_arch a ≠ "inception_v3"
  | MakeIterator => arg_arch a ≠ "inception_v3"
  | UnsignedSpikes => arg_arch a ≠ "inception_v3" ∧ arg_unsigned a = true
  | Validate model =>
      arg_arch a ≠ "inception_v3" ∧ arg_evaluate a = true
      ∧ ∃ initial epoch best st',
          init_model initial
          ∧ main_resume fs (arg_resume a)
              {| start_epoch := epoch; best_prec1 := best;
                 model_state := initial; optimizer_state := sgd_state w |}
            = Returned st' tt
          ∧ model = model_state st'
  end.

(** The file system [d] is [fs] with, at most, the two result directories
    added. *)
Definition grown (d : gmap string (Inode StateDict)) : Prop :=
  ∀ path, d !! path = fs !! path
          ∨ (fs !! path = None ∧ d !! path = Some Directory
             ∧ (path = "result" ∨ path = fdir_of (effective args))).

(** Why [main] can end with the exception [e] in state [s]: the condition
    of the statement of [main] that raised it, or the option that had a
    checkpoint read, or the external call that raised. *)
Definition abort_cause (e : MainExn) (s : MainState StateDict) : Prop :=
  let a := effective args in
  match e with
  | Exception msg =>
      msg = "error: No data set provided" ∧ arg_test args = false ∧ arg_data args = []
      ∧ calls s = []
  | IntValueError literal =>
      environ w !! "WORLD_SIZE" = Some literal ∧ py_int w literal = None
  | AssertionError msg =>
      msg = "Amp requires cudnn backend to be enabled." ∧ cudnn_enabled w = false
  | SystemExit => arg_init a ≠ EmptyString ∧ isfile _ fs (arg_init a) = false
  | MainRuntimeError msg =>
      msg = "Currently, inception_v3 is not supported by this example."
      ∧ arg_arch a = "inception_v3"
  | Builtin _ => arg_init a ≠ EmptyString ∨ arg_resume a ≠ EmptyString
  | Foreign code => ∃ before c, calls s = before ++ [c] ∧ raises w c = Some code
  end.

(** What holds of the state throughout a run of [main]. *)
Definition main_inv (s : MainState StateDict) : Prop :=
  Forall call_site (calls s) ∧ grown (disk s).

(** [validate] has not been called. *)
Definition not_validated (s : MainState StateDict) : Prop :=
  Forall (fun c => ∀ model, c ≠ Validate model) (calls s).

(** No call but the last is a call of [validate]. *)
Definition validate_last (s : MainState StateDict) : Prop :=
  ∀ i model, calls s !! i = Some (Validate model) → S i = length (calls s).

End MainSpec.

(** ** A small concrete instance

    Stand-ins for the collaborators (decoder, classifier, loss) and small
    inputs, on which the definitions are evaluated. *)

(** A stand-in decoder: a sample with no byte is undecodable, any other one
    decodes to one score per byte. *)
Definition demo_decode (bytes : list Byte.byte) : option (list Qc) :=
  match bytes with
  | [] => None
  | _ => Some ((fun b => Qn (N.to_nat (Byte.to_N b))) <$> bytes)
  end.

Definition demo_resize (size : Z) (img : list Qc) : list Qc := img.

Definition demo_crop_mirror_normalize (crop : Z) (mirror : bool) (img : list Qc)
  : list Qc := img.

(** A stand-in classifier over five classes whose logits are the input. *)
Definition demo_model (inputs : list (list Qc)) : Tensor2 :=
  {| ncols := 5; rows := inputs |}.

(** A stand-in loss: the mean, over the batch, of the gap between the best
    score and the score of the true class. *)
Definition demo_gap (row : list Qc) (t : Z) : Qc :=
  foldr (fun x m => if decide (m ≤ x) then x else m) 0 row - logit row (Z.to_nat t).

Definition demo_criterion (output : Tensor2) (target : list Z) : Qc :=
  tensor_sum (zip_with demo_gap (rows output) target) / Qn (length target).

Definition demo_sample (second_score : Byte.byte) : Sample :=
  {| encoded := [Byte.x00; second_score; Byte.x00; Byte.x00; Byte.x00]; label := 0 |}.

(** Rank A's batch: two samples with losses 4 and 6 (sum 10, count 2). *)
Definition batch_A : Batch (list Qc) :=
  {| data := [[Qn 0; Qn 4; Qn 0; Qn 0; Qn 0]; [Qn 0; Qn 6; Qn 0; Qn 0; Qn 0]];
     labels := [0; 0]%Z |}.

(** Rank B's batch: eight samples with losses 12 and 13 (sum 100, count 8). *)
Definition batch_B : Batch (list Qc) :=
  {| data := replicate 4 [Qn 0; Qn 12; Qn 0; Qn 0; Qn 0]
             ++ replicate 4 [Qn 0; Qn 13; Qn 0; Qn 0; Qn 0];
     labels := replicate 8 0%Z |}.

(** A dataset of ten decodable samples. *)
Definition ten_samples : list Sample :=
  demo_sample <$> [Byte.x01; Byte.x02; Byte.x03; Byte.x04; Byte.x05;
                   Byte.x06; Byte.x07; Byte.x08; Byte.x09; Byte.x0a].

(** A sample whose bytes the stand-in decoder rejects. *)
Definition corrupt_sample : Sample := {| encoded := []; label := 0 |}.

(** The same dataset with the seventh sample replaced by the undecodable one. *)
Definition ten_samples_one_corrupt : list Sample :=
  take 6 ten_samples ++ [corrupt_sample] ++ drop 7 ten_samples.

Definition demo_validate_meters :=
  validate_meters demo_model demo_criterion topk_stable.

Definition demo_evaluate :=
  evaluate demo_decode demo_resize demo_crop_mirror_normalize
           demo_model demo_criterion topk_stable.

(** A file system with one well-formed checkpoint, one corrupt file and one
    directory; state dicts are numbered. *)
Definition demo_checkpoint : gmap string (PyVal nat) :=
  <["epoch" := VInt 7]> (<["best_prec1" := VFloat (Qn 71)]>
  (<["state_dict" := VState 11%nat]> (<["optimizer" := VState 12%nat]> ∅))).

Definition demo_fs : gmap string (Inode nat) :=
  <["ckpt.pth" := RegularFile (Some demo_checkpoint)]>
  (<["junk.pth" := RegularFile None]> (<["result" := Directory]> ∅)).

Definition demo_state : RunState nat :=
  {| start_epoch := VInt 0; best_prec1 := VInt 0;
     model_state := 1%nat; optimizer_state := 2%nat |}.

(** The meters both ranks end with when [batch_A] and [batch_B] are
    evaluated in one distributed iteration. *)
Definition reduced_A : Meters :=
  {| losses := mkMeter (Q2Qc (35 # 4)) (Q2Qc (35 # 4)) (Q2Qc (35 # 2)) (Qn 2);
     top1 := mkMeter 0 0 0 (Qn 2);
     top5 := mkMeter (Qn 100) (Qn 100) (Qn 200) (Qn 2) |}.

Definition reduced_B : Meters :=
  {| losses := mkMeter (Q2Qc (35 # 4)) (Q2Qc (35 # 4)) (Qn 70) (Qn 8);
     top1 := mkMeter 0 0 0 (Qn 8);
     top5 := mkMeter (Qn 100) (Qn 100) (Qn 800) (Qn 8) |}.

(** The same two batches, each rank on its own. *)
Definition local_A : Meters :=
  {| losses := mkMeter (Qn 5) (Qn 5) (Qn 10) (Qn 2);
     top1 := mkMeter 0 0 0 (Qn 2);
     top5 := mkMeter (Qn 100) (Qn 100) (Qn 200) (Qn 2) |}.

Definition local_B : Meters :=
  {| losses := mkMeter (Q2Qc (25 # 2)) (Q2Qc (25 # 2)) (Qn 100) (Qn 8);
     top1 := mkMeter 0 0 0 (Qn 8);
     top5 := mkMeter (Qn 100) (Qn 100) (Qn 800) (Qn 8) |}.

(** Four rows of three logits; the second row has a tie for the best score. *)
Definition T3 : Tensor2 := {| ncols := 3; rows :=
  [ [Qn 1; Qn 5; Qn 3]; [Qn 7; Qn 2; Qn 7]; [Qn 0; Qn 0; Qn 9]; [Qn 4; Qn 6; Qn 5] ] |}.

#[global] Instance PipelineArgs_eq_dec : EqDecision PipelineArgs.
Proof. solve_decision. Defined.
#[global] Instance Call_eq_dec {StateDict : Type} `{EqDecision StateDict} :
  EqDecision (Call StateDict).
Proof. solve_decision. Defined.
#[global] Instance MainExn_eq_dec : EqDecision MainExn.
Proof. solve_decision. Defined.

(** A process environment without [WORLD_SIZE] in which no external call
    fails, and one of a two-process group. *)
Definition demo_world : World nat :=
  {| environ := ∅;
     py_int := fun _ => None;
     get_world_size := 1;
     cudnn_enabled := true;
     has_memory_formats := true;
     zoo := fun _ _ _ => 1%nat;
     sgd_state := 2%nat;
     raises := fun _ => None |}.

Definition demo_group : World nat :=
  {| environ := <["WORLD_SIZE" := "2"]> ∅;
     py_int := fun size => if decide (size = "2") then Some 2%Z else None;
     get_world_size := 2;
     cudnn_enabled := true;
     has_memory_formats := true;
     zoo := fun _ _ _ => 1%nat;
     sgd_state := 2%nat;
     raises := fun _ => None |}.

(** The arguments of [DIR.. -a arch --resume resume --init init -b 32
    --local_rank r], with or without [-e] and [-t]. *)
Definition demo_args (data : list string) (arch resume init : string)
    (evaluate test : bool) (local_rank : Z) : Args :=
  {| arg_data := data;
     arg_arch := arch;
     arg_workers := 4;
     arg_start_epoch := 0;
     arg_batch_size := 32;
     arg_lr := Q2Qc (1 # 10);
     arg_momentum := Q2Qc (9 # 10);
     arg_weight_decay := Q2Qc (1 # 10000);
     arg_resume := resume;
     arg_evaluate := evaluate;
     arg_pretrained := false;
     arg_dali_cpu := false;
     arg_deterministic := false;
     arg_local_rank := local_rank;
     arg_channels_last := false;
     arg_test := test;
     arg_bit := 5;
     arg_init := init;
     arg_unsigned := false |}.

(** Two processes, [--resume ckpt.pth -e] on rank 1. *)
Definition resumed_run : Args :=
  demo_args ["/imagenet"] "resnet18" "ckpt.pth" EmptyString true false 1.

(** A single process started with [--local_rank 3] and without [-e]. *)
Definition rank3_run : Args :=
  demo_args ["/train"; "/val"] "resnet18" EmptyString EmptyString false false 3.

Definition inception_run : Args :=
  demo_args ["/imagenet"] "inception_v3" EmptyString EmptyString true false 0.

(** No data path, without and with [-t]. *)
Definition no_data_run : Args :=
  demo_args [] "resnet18" EmptyString EmptyString true false 0.

Definition test_run : Args :=
  demo_args [] "resnet18" EmptyString EmptyString true true 0.

(** [--resume] names a path that does not exist. *)
Definition fresh_run : Args :=
  demo_args ["/imagenet"] "resnet18" "none.pth" EmptyString true false 0.

(** * Properties *)

(** ** Evaluating the definitions *)

Example topk_try : topk_stable 2 [Qn 7; Qn 2; Qn 8; Qn 9] = [3; 2]%nat.
Proof. by_evaluation. Qed.

Example accuracy_try :
  accuracy topk_stable T3 [1; 1; 2; 0]%Z [1; 2]%nat = Ok [Qn 50; Qn 50].
Proof. by_evaluation. Qed.

Example accuracy_try2 :
  accuracy topk_stable T3 [1; 2; 2; 2]%Z [1; 2]%nat = Ok [Qn 75; Qn 100].
Proof. by_evaluation. Qed.

Example update_try : update AverageMeter_init (Q2Qc (5 # 2)) (Qc_of_Z 4) =
  Returned {| val := Q2Qc (5 # 2); avg := Q2Qc (5 # 2); sum := Qc_of_Z 10; count := Qc_of_Z 4 |} tt.
Proof. by_evaluation. Qed.

(** ** Rationals *)

Lemma Qn_0 : Qn 0 = 0.
Proof. apply Z2Qc_inj_0. Qed.

Lemma Qn_1 : Qn 1 = 1.
Proof. apply Z2Qc_inj_1. Qed.

Lemma Qn_add (a b : nat) : Qn (a + b) = Qn a + Qn b.
Proof. unfold Qn. rewrite Nat2Z.inj_add. apply Z2Qc_inj_add. Qed.

Lemma Qn_nonneg (a : nat) : 0 ≤ Qn a.
Proof.
  unfold Qn. rewrite <- Z2Qc_inj_0. apply (proj1 (Z2Qc_inj_le 0 (Z.of_nat a))). lia.
Qed.

Lemma Qn_pos (a : nat) : (0 < a)%nat → 0 < Qn a.
Proof.
  intros Ha. unfold Qn. rewrite <- Z2Qc_inj_0.
  apply (proj1 (Z2Qc_inj_lt 0 (Z.of_nat a))). lia.
Qed.

Lemma Qn_neq_0 (a : nat) : a ≠ 0%nat → Qn a ≠ 0.
Proof.
  intros Ha Heq. assert (0 < Qn a) as Hlt by (apply Qn_pos; lia).
  rewrite Heq in Hlt. by apply (irreflexivity Qclt 0).
Qed.

(** ** [AverageMeter] *)

Lemma update_returns (m : AverageMeter) (v n : Qc) :
  count m + n ≠ 0 → update m v n = Returned (updated m v n) tt.
Proof.
  intros Hc. unfold update, updated; simpl.
  destruct (decide (count m + n = 0)) as [Heq|_]; [by destruct Hc|reflexivity].
Qed.

Lemma update_raises (m : AverageMeter) (v n : Qc) :
  count m + n = 0 →
  update m v n = Raised {| val := v; avg := avg m; sum := sum m + v * n;
                           count := count m + n |} ZeroDivisionError.
Proof.
  intros Hc. unfold update; simpl.
  destruct (decide (count m + n = 0)) as [_|Hne]; [reflexivity|by destruct Hne].
Qed.

(** C3.  [update(v, n)] on a meter with fields [(sum, count)] sets [val] to
    [v], [sum] to [sum + v*n], [count] to [count + n] and [avg] to the new sum
    divided by the new count (where that quotient exists, the new count being
    non-zero).  The call reads and writes the one meter it is given, nothing
    else: no other rank takes part. *)
Theorem update_sets_fields (m : AverageMeter) (v n : Qc) :
  count m + n ≠ 0 →
  ∃ m', update m v n = Returned m' tt
        ∧ val m' = v
        ∧ sum m' = sum m + v * n
        ∧ count m' = count m + n
        ∧ avg m' = sum m' / count m'.
Proof.
  intros Hc. exists (updated m v n).
  split; [by apply update_returns|]. by repeat split.
Qed.

Lemma update_sets_fields_witness :
  ∃ m', update {| val := Qn 3; avg := Qn 5; sum := Qn 10; count := Qn 2 |}
               (Qn 4) (Qn 3) = Returned m' tt
        ∧ val m' = Qn 4
        ∧ sum m' = Qn 10 + Qn 4 * Qn 3
        ∧ count m' = Qn 2 + Qn 3
        ∧ avg m' = sum m' / count m'.
Proof.
  apply (update_sets_fields {| val := Qn 3; avg := Qn 5; sum := Qn 10; count := Qn 2 |}
                            (Qn 4) (Qn 3)).
  simpl. by_evaluation.
Defined.

(** C4.  [reset()] followed by one [update(v, 1)] yields [avg == v]. *)
Theorem reset_update_once (m : AverageMeter) (v : Qc) :
  ∃ m', update (reset m) v 1 = Returned m' tt ∧ avg m' = v.
Proof.
  exists (updated (reset m) v 1). split.
  - apply update_returns. simpl. rewrite Qcplus_0_l. discriminate.
  - simpl. rewrite Qcplus_0_l, Qcplus_0_l, Qcmult_1_r. apply (right_id 1 Qcdiv).
Qed.

(** C10.  [update(v, 0)] on a freshly reset meter raises
    [ZeroDivisionError]: the new count is 0 and [sum / count] is evaluated
    without a guard.  The assignments made before the division stay. *)
Theorem update_zero_weight_raises (m : AverageMeter) (v : Qc) :
  update (reset m) v 0 =
  Raised {| val := v; avg := 0; sum := 0; count := 0 |} ZeroDivisionError.
Proof.
  rewrite update_raises by (simpl; apply Qcplus_0_l).
  simpl. by rewrite Qcmult_0_r, !Qcplus_0_l.
Qed.

(** ** [accuracy] *)

Lemma rmap_ok {A B : Type} (f : A → Result B) (g : A → B) (xs : list A) :
  (∀ x, x ∈ xs → f x = Ok (g x)) → rmap f xs = Ok (g <$> xs).
Proof.
  induction xs as [|x xs IH]; intros Hf; simpl; [done|].
  rewrite (Hf x) by left. simpl.
  rewrite IH by (intros y Hy; apply Hf; by right). done.
Qed.

Lemma tensor_sum_app (xs ys : list Qc) :
  tensor_sum (xs ++ ys) = tensor_sum xs + tensor_sum ys.
Proof.
  unfold tensor_sum. induction xs as [|x xs IH]; simpl.
  - by rewrite Qcplus_0_l.
  - by rewrite IH, Qcplus_assoc.
Qed.

Lemma py_max_ge (ks : list nat) (maxk k : nat) :
  py_max ks = Ok maxk → k ∈ ks → (k ≤ maxk)%nat.
Proof.
  destruct ks as [|k0 ks]; simpl; [done|]. intros [= <-] Hk.
  assert (∀ l, (k0 ≤ foldr Nat.max k0 l)%nat) as H0.
  { induction l; simpl; lia. }
  apply elem_of_cons in Hk as [->|Hk]; [apply H0|].
  induction ks as [|a ks IH]; [by apply elem_of_nil in Hk|].
  simpl. apply elem_of_cons in Hk as [->|Hk]; [lia|]. specialize (IH Hk). lia.
Qed.

(** One row of [pred.t()] compared with the labels. *)
Lemma row_sum (P : list (list Z)) (target : list Z) (j : nat) :
  tensor_sum (float_ <$> zip_with (fun x y => bool_decide (x = y))
                                   ((fun row => nth j row 0%Z) <$> P) target)
  = Qn (sum_list (zip_with (fun p t => indicator (nth j p 0%Z = t)) P target)).
Proof.
  revert target. induction P as [|p P IH]; intros [|t target]; simpl;
    try (symmetry; apply Qn_0).
  rewrite Qn_add, <- IH. f_equal.
  unfold indicator, float_. rewrite bool_decide_decide.
  destruct (decide (nth j p 0%Z = t)); [by rewrite Qn_1|by rewrite Qn_0].
Qed.

Lemma sum_list_zip_with_add {A B : Type} (f g : A → B → nat) (xs : list A) (ys : list B) :
  sum_list (zip_with (fun x y => f x y + g x y)%nat xs ys)
  = (sum_list (zip_with f xs ys) + sum_list (zip_with g xs ys))%nat.
Proof.
  revert ys. induction xs as [|x xs IH]; intros [|y ys]; simpl; try done.
  rewrite IH. lia.
Qed.

Lemma sum_list_zip_with_ext {A B : Type} (f g : A → B → nat) (xs : list A) (ys : list B) :
  (∀ x y, x ∈ xs → f x y = g x y) →
  sum_list (zip_with f xs ys) = sum_list (zip_with g xs ys).
Proof.
  revert ys. induction xs as [|x xs IH]; intros [|y ys] Hfg; simpl; try done.
  rewrite Hfg by left. rewrite IH; [done|]. intros; apply Hfg; by right.
Qed.

Lemma indicator_take_S (p : list Z) (t : Z) (k : nat) :
  NoDup p → (k < length p)%nat →
  indicator (t ∈ take (S k) p) = (indicator (t ∈ take k p) + indicator (nth k p 0%Z = t))%nat.
Proof.
  intros Hnd Hk.
  destruct (nth_lookup_or_length p k 0%Z) as [Hlk|?]; [|lia].
  pose proof (take_S_r _ _ _ Hlk) as Htk.
  assert (t ∈ take k p → nth k p 0%Z = t → False) as Hexcl.
  { intros Hin <-.
    rewrite <- (take_drop k p) in Hnd. apply NoDup_app in Hnd as (_ & Hdisj & _).
    apply (Hdisj _ Hin).
    apply list_elem_of_lookup. exists 0%nat. by rewrite lookup_drop, Nat.add_0_r. }
  assert (t ∈ take (S k) p ↔ t ∈ take k p ∨ nth k p 0%Z = t) as Hiff.
  { rewrite Htk, elem_of_app, list_elem_of_singleton.
    split; (intros [?|?]; [by left|by right]). }
  unfold indicator.
  destruct (decide (t ∈ take k p)); destruct (decide (nth k p 0%Z = t));
    destruct (decide (t ∈ take (S k) p)); simpl; try done; exfalso; tauto.
Qed.

(** The first [k] rows of [pred.t().eq(target...)], summed: every sample
    counts once if its label is among its first [k] predictions. *)
Lemma correct_take (w : nat) (P : list (list Z)) (target : list Z) (k : nat) :
  (k ≤ w)%nat →
  take k (eq_ (t_ w P) (replicate w target))
  = (fun j => zip_with (fun x y => bool_decide (x = y))
                       ((fun row => nth j row 0%Z) <$> P) target) <$> seq 0 k.
Proof.
  intros Hk. unfold eq_, t_.
  rewrite zip_with_replicate_r_eq by (by rewrite length_fmap, length_seq).
  rewrite <- list_fmap_compose, <- fmap_take, take_seq.
  by rewrite Nat.min_l.
Qed.

Lemma correct_count (w : nat) (P : list (list Z)) (target : list Z) (k : nat) :
  (k ≤ w)%nat → Forall (fun p => NoDup p ∧ length p = w) P →
  tensor_sum (float_ <$> concat (take k (eq_ (t_ w P) (replicate w target))))
  = Qn (sum_list (zip_with (fun p t => indicator (t ∈ take k p)) P target)).
Proof.
  intros Hk HP. rewrite correct_take by done.
  induction k as [|k IH].
  - simpl. rewrite (sum_list_zip_with_ext _ (fun _ _ => 0%nat)).
    + symmetry. replace (sum_list _) with 0%nat; [apply Qn_0|].
      clear. revert target. induction P; intros [|??]; simpl; auto.
    + intros p t _. unfold indicator. rewrite take_0.
      destruct (decide (t ∈ [])) as [Hin|]; [by apply elem_of_nil in Hin|done].
  - rewrite seq_S, fmap_app, concat_app, fmap_app, tensor_sum_app.
    rewrite IH by lia. simpl. rewrite app_nil_r, row_sum, <- Qn_add.
    f_equal. rewrite <- sum_list_zip_with_add.
    apply sum_list_zip_with_ext. intros p t Hp.
    rewrite Forall_forall in HP. destruct (HP p Hp) as [Hnd Hlen].
    symmetry. apply indicator_take_S; [done|lia].
Qed.

Lemma is_topk_take (row : list Qc) (m k : nat) (idxs : list nat) :
  is_topk row m idxs → (k ≤ m)%nat → is_topk row k (take k idxs).
Proof.
  intros [Hlen Hnd Hrange Hsorted Hbest] Hk.
  rewrite <- (take_drop k idxs) in Hnd, Hsorted.
  split.
  - rewrite length_take. lia.
  - by apply NoDup_app in Hnd as (? & _ & _).
  - intros i Hi. apply Hrange. rewrite <- (take_drop k idxs), elem_of_app. by left.
  - by apply StronglySorted_app_1_l in Hsorted.
  - intros i j Hi Hj Hnotin.
    destruct (decide (j ∈ idxs)) as [Hin|Hout].
    + rewrite <- (take_drop k idxs), elem_of_app in Hin.
      destruct Hin as [?|Hin]; [done|].
      apply (StronglySorted_app_1_elem_of _ _ _ _ _ Hsorted Hi Hin).
    + apply Hbest; [|done|done].
      rewrite <- (take_drop k idxs), elem_of_app. by left.
Qed.

#[local] Instance descending_trans row : Transitive (descending row).
Proof. intros i j k Hij Hjk. unfold descending in *. by trans (logit row j). Qed.

#[local] Instance descending_total row : Total (descending row).
Proof. intros i j. unfold descending. destruct (Qc_le_total (logit row i) (logit row j)); auto. Qed.

Lemma topk_stable_ok (k : nat) (row : list Qc) :
  (k ≤ length row)%nat → is_topk row k (topk_stable k row).
Proof.
  intros Hk. unfold topk_stable.
  apply (is_topk_take row (length row)); [|done].
  pose proof (merge_sort_Permutation (descending row) (seq 0 (length row))) as Hperm.
  split.
  - by rewrite Hperm, length_seq.
  - rewrite Hperm. apply NoDup_seq.
  - intros i Hi. rewrite Hperm in Hi. apply elem_of_seq in Hi. lia.
  - apply StronglySorted_merge_sort; apply _.
  - intros i j _ Hj Hnotin. destruct Hnotin. rewrite Hperm. apply elem_of_seq. lia.
Qed.

Section AccuracyFacts.

Variable topk_row : nat → list Qc → list nat.

Lemma accuracy_computes (output : Tensor2) (target : list Z) (ks : list nat) (maxk : nat) :
  py_max ks = Ok maxk → (maxk ≤ ncols output)%nat →
  length target = length (rows output) → target ≠ [] →
  accuracy topk_row output target ks
  = Ok ((fun k =>
           tensor_sum (float_ <$> concat (take k
             (eq_ (t_ maxk ((fun row => Z.of_nat <$> topk_row maxk row) <$> rows output))
                  (replicate maxk target))))
           * (Qn 100 / Qn (length target))) <$> ks).
Proof.
  intros Hmax Hcols Hlen Hne. unfold accuracy. rewrite Hmax. simpl.
  unfold tensor_topk. rewrite decide_True by done. simpl.
  unfold expand_as. rewrite decide_True by done. simpl.
  apply rmap_ok. intros k _. unfold py_div.
  rewrite decide_False; [done|]. by destruct target.
Qed.

Hypothesis topk_row_ok :
  ∀ k row, (k ≤ length row)%nat → is_topk row k (topk_row k row).

(** C5.  For each requested [k], [accuracy] returns 100 times the fraction of
    the samples of the batch whose label is among the [k] highest-scoring
    classes of the sample's logits: [best k] picks, for every row, [k] positions
    that form a top-[k] set of that row ([is_topk]), and the result is
    [100 * hits / batch_size].  Which of several equal logits enters the set is
    whatever [topk] chooses. *)
Theorem accuracy_topk_fraction (output : Tensor2) (target : list Z) (ks : list nat) (maxk : nat) :
  wf_tensor output → py_max ks = Ok maxk → (maxk ≤ ncols output)%nat →
  length target = length (rows output) → target ≠ [] →
  let best k := (fun row => take k (topk_row maxk row)) <$> rows output in
  (∀ k, k ∈ ks → Forall2 (fun row top => is_topk row k top) (rows output) (best k))
  ∧ accuracy topk_row output target ks
    = Ok ((fun k => Qn 100 * (Qn (hits (best k) target) / Qn (length target))) <$> ks).
Proof.
  intros Hwf Hmax Hcols Hlen Hne best. split.
  - intros k Hk. unfold best. apply Forall2_fmap_r, Forall_Forall2_diag.
    unfold wf_tensor in Hwf. eapply Forall_impl; [exact Hwf|]. intros row Hrow. simpl.
    apply (is_topk_take row maxk); [|by eapply py_max_ge].
    apply topk_row_ok. simpl in Hrow. lia.
  - rewrite (accuracy_computes output target ks maxk) by done.
    f_equal. apply list_fmap_ext. intros _ k Hk%list_elem_of_lookup_2.
    assert (k ≤ maxk)%nat as Hkm by (by eapply py_max_ge).
    rewrite correct_count; [|done|].
    + assert (Qn (length target) ≠ 0) as HB.
      { apply Qn_neq_0. by destruct target. }
      replace (sum_list _) with (hits (best k) target); [by field|].
      unfold hits, best. rewrite !zip_with_fmap_l.
      apply sum_list_zip_with_ext. intros row t _. by rewrite fmap_take.
    + apply Forall_fmap. unfold wf_tensor in Hwf.
      eapply Forall_impl; [exact Hwf|]. intros row Hrow. simpl in *.
      destruct (topk_row_ok maxk row) as [Hl Hnd _ _ _]; [lia|].
      split; [|by rewrite length_fmap].
      apply NoDup_fmap_2; [apply _|done].
Qed.

Lemma tensor_sum_float_nonneg (bs : list bool) : 0 ≤ tensor_sum (float_ <$> bs).
Proof.
  induction bs as [|b bs IH]; simpl; [done|].
  apply Qcplus_nonneg_nonneg; [by destruct b|done].
Qed.

(** C6.  For every batch the top-5 accuracy is at least the top-1 accuracy
    (whatever [topk] does with ties, the first five rows of [correct] contain
    the first one). *)
Theorem top5_ge_top1 (output : Tensor2) (target : list Z) :
  (5 ≤ ncols output)%nat → length target = length (rows output) → target ≠ [] →
  ∃ prec1 prec5,
    accuracy topk_row output target [1; 5]%nat = Ok [prec1; prec5] ∧ prec1 ≤ prec5.
Proof.
  intros Hcols Hlen Hne.
  rewrite (accuracy_computes output target [1; 5]%nat 5) by done.
  eexists _, _. split; [reflexivity|].
  apply Qcmult_le_mono_nonneg_r.
  - apply Qcmult_nonneg_nonneg; [apply Qn_nonneg|].
    apply Qclt_le_weak, Qcinv_pos, Qn_pos. destruct target; simpl; [done|lia].
  - set (correct := eq_ _ _).
    change 5%nat with (1 + 4)%nat. rewrite <- take_take_drop.
    rewrite concat_app, fmap_app, tensor_sum_app.
    rewrite <- (Qcplus_0_r (tensor_sum _)) at 1.
    apply Qcplus_le_mono_l, tensor_sum_float_nonneg.
Qed.

End AccuracyFacts.

Lemma wf_T3 : wf_tensor T3.
Proof. unfold wf_tensor, T3; simpl. by repeat constructor. Qed.

Lemma accuracy_topk_fraction_witness :
  let best k := (fun row => take k (topk_stable 2 row)) <$> rows T3 in
  (∀ k, k ∈ [1; 2]%nat → Forall2 (fun row top => is_topk row k top) (rows T3) (best k))
  ∧ accuracy topk_stable T3 [1; 2; 2; 2]%Z [1; 2]%nat
    = Ok ((fun k => Qn 100 * (Qn (hits (best k) [1; 2; 2; 2]%Z) / Qn 4)) <$> [1; 2]%nat).
Proof.
  apply (accuracy_topk_fraction topk_stable topk_stable_ok T3 [1; 2; 2; 2]%Z [1; 2]%nat 2).
  - exact wf_T3.
  - reflexivity.
  - simpl. lia.
  - reflexivity.
  - discriminate.
Defined.

Lemma top5_ge_top1_witness :
  ∃ prec1 prec5,
    accuracy topk_stable (demo_model (data batch_A)) (labels batch_A) [1; 5]%nat
    = Ok [prec1; prec5] ∧ prec1 ≤ prec5.
Proof.
  apply (top5_ge_top1 topk_stable (demo_model (data batch_A)) (labels batch_A)).
  - simpl. lia.
  - reflexivity.
  - discriminate.
Defined.

(** ** The evaluation loop *)

Lemma rmap_fmap_ok {A B C : Type} (f : B → Result C) (h : A → B) (g : A → C) (xs : list A) :
  (∀ x, x ∈ xs → f (h x) = Ok (g x)) → rmap f (h <$> xs) = Ok (g <$> xs).
Proof.
  induction xs as [|x xs IH]; intros Hf; csimpl; [done|].
  rewrite (Hf x) by left. csimpl.
  rewrite IH by (intros y Hy; apply Hf; by right). done.
Qed.

Lemma rmap_has_err {A B : Type} (f : A → Result B) (xs : list A) (x : A) (e : Exn) :
  x ∈ xs → f x = Err e → ∃ e', rmap f xs = Err e'.
Proof.
  induction xs as [|y xs IH]; intros Hx Hfx; [by apply elem_of_nil in Hx|].
  simpl. destruct (f y) as [b|e0] eqn:Hy; simpl; [|by eexists].
  apply elem_of_cons in Hx as [->|Hx]; [congruence|].
  destruct (IH Hx Hfx) as [e' ->]. by eexists.
Qed.

Section HarnessFacts.

Context {Input : Type}.
Variable model : list Input → Tensor2.
Variable criterion : Tensor2 → list Z → Qc.
Variable topk_row : nat → list Qc → list nat.

Lemma forward_ok (b : Batch Input) :
  wf_batch model b →
  forward model criterion topk_row b = Ok (forward_value model criterion topk_row b)
  ∧ (forward_value model criterion topk_row b).1.1 = batch_loss model criterion b.
Proof.
  intros (Hd & Hl & Hc & Hlen). unfold forward_value, forward.
  rewrite (accuracy_computes topk_row (model (data b)) (labels b) [1; 5]%nat 5) by done.
  by simpl.
Qed.

Lemma update_ok (m : AverageMeter) (v : Qc) (n : nat) :
  0 ≤ count m → n ≠ 0%nat → update_ m v (Qn n) = Ok (updated m v (Qn n)).
Proof.
  intros Hc Hn. unfold update_. rewrite update_returns; [done|].
  intros Heq. assert (0 < count m + Qn n) as Hlt.
  { apply Qcplus_nonneg_pos; [done|]. apply Qn_pos. lia. }
  rewrite Heq in Hlt. by apply (irreflexivity Qclt 0).
Qed.

Lemma record_batch_ok (distributed : bool) (bs : list (Batch Input)) (m : Meters)
    (b : Batch Input) :
  meters_nonneg m → data b ≠ [] →
  record_batch distributed (length bs) (forward_value model criterion topk_row <$> bs) m
               (b, forward_value model criterion topk_row b)
  = Ok (recorded model criterion topk_row distributed bs m b).
Proof.
  intros (H1 & H2 & H3) Hd. unfold record_batch.
  destruct (forward_value model criterion topk_row b) as [[loss prec1] prec5] eqn:Hfv.
  assert (length (data b) ≠ 0%nat) as Hn by (by destruct (data b)).
  rewrite !update_ok by done. simpl.
  unfold recorded. by rewrite Hfv.
Qed.

Lemma zip_recorded (distributed : bool) (bs0 bs : list (Batch Input)) (ms : list Meters) :
  (fun '(m, mine) => recorded model criterion topk_row distributed bs0 m mine.1)
    <$> zip ms ((fun b => (b, forward_value model criterion topk_row b)) <$> bs)
  = zip_with (recorded model criterion topk_row distributed bs0) ms bs.
Proof.
  revert bs. induction ms as [|m ms IH]; intros [|b bs]; simpl; try done.
  by rewrite IH.
Qed.

Lemma validate_step_ok (distributed : bool) (ms : list Meters) (bs : list (Batch Input)) :
  Forall (wf_batch model) bs → Forall meters_nonneg ms →
  validate_step model criterion topk_row distributed ms (Ok <$> bs)
  = Ok (zip_with (recorded model criterion topk_row distributed bs) ms bs).
Proof.
  intros Hbs Hms. unfold validate_step.
  rewrite (rmap_fmap_ok _ _ (fun b => (b, forward_value model criterion topk_row b))).
  2:{ intros b Hb. rewrite Forall_forall in Hbs. unfold next_forward. simpl.
      destruct (forward_ok b (Hbs b Hb)) as [-> _]. done. }
  simpl. rewrite length_fmap, <- list_fmap_compose.
  change (snd ∘ (fun b => (b, forward_value model criterion topk_row b)))
    with (forward_value model criterion topk_row).
  rewrite (rmap_ok _ (fun '(m, mine) => recorded model criterion topk_row distributed bs m mine.1)).
  - by rewrite zip_recorded.
  - intros [m [b out]] Hin.
    apply list_elem_of_lookup in Hin as [i Hi].
    apply lookup_zip_with_Some in Hi as (m' & mine & [= <- <-] & Hm & Hmine).
    rewrite list_lookup_fmap in Hmine.
    destruct (bs !! i) as [b'|] eqn:Hb; [|done].
    injection Hmine as <- <-.
    rewrite Forall_forall in Hbs. rewrite Forall_forall in Hms.
    apply record_batch_ok.
    + apply Hms. by eapply list_elem_of_lookup_2.
    + apply (Hbs b'). by eapply list_elem_of_lookup_2.
Qed.

Lemma updated_fresh (v : Qc) (n : nat) :
  n ≠ 0%nat → shows (updated AverageMeter_init v (Qn n)) v (Qn n).
Proof.
  intros Hn. apply Qn_neq_0 in Hn. unfold shows, updated; simpl.
  rewrite !Qcplus_0_l. repeat split. by field.
Qed.

(** C1, as the code has it.  A distributed iteration does not reduce
    [(sum, count)] pairs: [reduce_tensor] sum-reduces each rank's batch value
    (loss, prec@1, prec@5) and divides by the world size, and every rank feeds
    that plain mean of the per-rank values into its own meter, weighted by its
    own batch size.  After one iteration from fresh meters every rank shows
    [avg] = the unweighted mean over the ranks, with [count] its local batch
    size and [sum] their product. *)
Theorem reduced_average_is_mean_of_ranks (bs : list (Batch Input)) :
  Forall (wf_batch model) bs →
  ∃ ms, validate_meters model criterion topk_row true (length bs) [Ok <$> bs] = Ok ms
        ∧ Forall2 (fun m b =>
                     let n := Qn (length (data b)) in
                     shows (losses m) (mean (batch_loss model criterion <$> bs)) n
                     ∧ shows (top1 m) (mean (batch_prec1 model criterion topk_row <$> bs)) n
                     ∧ shows (top5 m) (mean (batch_prec5 model criterion topk_row <$> bs)) n)
                  ms bs.
Proof.
  intros Hbs. eexists. split.
  - unfold validate_meters. simpl. rewrite validate_step_ok; [reflexivity|done|].
    apply Forall_replicate. unfold meters_nonneg. by simpl.
  - rewrite zip_with_replicate_l by done.
    apply Forall2_fmap_l, Forall_Forall2_diag.
    rewrite Forall_forall in Hbs. apply Forall_forall. intros b Hb.
    destruct (Hbs b Hb) as (Hd & _).
    assert (length (data b) ≠ 0%nat) as Hn by (by destruct (data b)).
    assert (batch_loss model criterion <$> bs
            = (forward_value model criterion topk_row <$> bs).*1.*1) as ->.
    { rewrite <- !list_fmap_compose. apply list_fmap_ext.
      intros i b' Hb'%list_elem_of_lookup_2. simpl.
      by destruct (forward_ok b' (Hbs b' Hb')) as [_ ->]. }
    unfold recorded, mean, reduce_tensor, all_reduce_sum, batch_prec1, batch_prec5; simpl.
    rewrite <- !list_fmap_compose, !length_fmap.
    repeat split; by apply updated_fresh.
Qed.



End HarnessFacts.

Lemma wf_batch_A : wf_batch demo_model batch_A.
Proof. unfold wf_batch; simpl. repeat split; (discriminate || lia || reflexivity). Qed.

Lemma wf_batch_B : wf_batch demo_model batch_B.
Proof. unfold wf_batch; simpl. repeat split; (discriminate || lia || reflexivity). Qed.

Lemma reduced_average_is_mean_of_ranks_witness :
  ∃ ms, demo_validate_meters true 2 [[Ok batch_A; Ok batch_B]] = Ok ms
        ∧ Forall2 (fun m b =>
                     let n := Qn (length (data b)) in
                     shows (losses m)
                           (mean (batch_loss demo_model demo_criterion <$> [batch_A; batch_B])) n
                     ∧ shows (top1 m)
                             (mean (batch_prec1 demo_model demo_criterion topk_stable
                                      <$> [batch_A; batch_B])) n
                     ∧ shows (top5 m)
                             (mean (batch_prec5 demo_model demo_criterion topk_stable
                                      <$> [batch_A; batch_B])) n)
                  ms [batch_A; batch_B].
Proof.
  apply (reduced_average_is_mean_of_ranks demo_model demo_criterion topk_stable
           [batch_A; batch_B]).
  apply Forall_cons. split; [exact wf_batch_A|].
  apply Forall_cons. split; [exact wf_batch_B|constructor].
Defined.

(** C1 fails on the code.  Rank A alone ends with (sum 10, count 2), rank B
    alone with (sum 100, count 8); evaluated together in distributed mode both
    ranks show avg 35/4 = 8.75, the mean of the two rank averages 5 and 12.5,
    and not 110/10 = 11. *)
Lemma reduction_averages_the_rank_averages :
  demo_validate_meters false 2 [[Ok batch_A; Ok batch_B]] = Ok [local_A; local_B]
  ∧ (sum (losses local_A) + sum (losses local_B))
    / (count (losses local_A) + count (losses local_B)) = Qn 11
  ∧ demo_validate_meters true 2 [[Ok batch_A; Ok batch_B]] = Ok [reduced_A; reduced_B]
  ∧ avg (losses reduced_A) = Q2Qc (35 # 4)
  ∧ avg (losses reduced_B) = Q2Qc (35 # 4)
  ∧ Q2Qc (35 # 4) ≠ Qn 11.
Proof. repeat split; by_evaluation. Qed.

(** ** Reader, iterator and undecodable samples *)

Lemma chunk_concat {A : Type} (n : nat) (l : list A) :
  ∀ cur, concat (chunk n cur l) = reverse cur ++ l.
Proof.
  induction l as [|x l IH]; intros cur; simpl.
  - destruct cur; simpl; by rewrite ?app_nil_r.
  - destruct (decide (S (length cur) = n)); simpl; rewrite IH.
    + by rewrite reverse_cons, <- app_assoc.
    + by rewrite reverse_cons, <- app_assoc.
Qed.

Lemma chunk_length {A B : Type} (n : nat) (l : list A) (l' : list B) :
  ∀ cur cur', length l = length l' → length cur = length cur' →
              length (chunk n cur l) = length (chunk n cur' l').
Proof.
  revert l'. induction l as [|x l IH]; intros [|x' l'] cur cur' Hl Hc; simpl in *; try done.
  - by destruct cur, cur'.
  - rewrite <- Hc. destruct (decide (S (length cur) = n)); simpl.
    + f_equal. apply IH; [lia|done].
    + apply IH; [lia|simpl; lia].
Qed.

Lemma shard_length_covers (T W : nat) : (0 < W)%nat → (T ≤ W * shard_length T W)%nat.
Proof.
  intros HW. unfold shard_length.
  pose proof (Nat.div_mod (T + W - 1) W) as Hdm.
  pose proof (Nat.mod_upper_bound (T + W - 1) W). lia.
Qed.

Lemma shard_begin_mono (T W r r' : nat) :
  (r ≤ r')%nat → (shard_begin T W r ≤ shard_begin T W r')%nat.
Proof. intros Hr. unfold shard_begin. apply Nat.Div0.div_le_mono. nia. Qed.

Lemma shard_begin_end (T W : nat) : (0 < W)%nat → shard_begin T W W = T.
Proof. intros HW. unfold shard_begin. rewrite Nat.mul_comm. apply Nat.div_mul. lia. Qed.

Lemma shard_begin_le (T W r : nat) :
  (0 < W)%nat → (r ≤ W)%nat → (shard_begin T W r ≤ T)%nat.
Proof.
  intros HW Hr. rewrite <- (shard_begin_end T W HW) at 2. by apply shard_begin_mono.
Qed.

Lemma shard_begin_lt (T W r : nat) :
  (0 < T)%nat → (r < W)%nat → (shard_begin T W r < T)%nat.
Proof.
  intros HT Hr. unfold shard_begin. apply Nat.Div0.div_lt_upper_bound. nia.
Qed.

Lemma shard_size_le_length (T W r : nat) :
  (0 < W)%nat → (shard_size T W r ≤ shard_length T W)%nat.
Proof.
  intros HW. pose proof (shard_length_covers T W HW) as Hcov.
  unfold shard_size, shard_begin.
  assert ((r + 1) * T / W ≤ (r * T + shard_length T W * W) / W)%nat as Hle
    by (apply Nat.Div0.div_le_mono; nia).
  rewrite Nat.div_add in Hle by lia. lia.
Qed.


Lemma shard_own_length (file_root : list Sample) (r W : nat) :
  (0 < W)%nat → (r < W)%nat →
  length (take (shard_size (length file_root) W r)
               (drop (shard_begin (length file_root) W r) file_root))
  = shard_size (length file_root) W r.
Proof.
  intros HW Hr. rewrite length_take, length_drop.
  pose proof (shard_begin_le (length file_root) W (r + 1) HW).
  unfold shard_size. lia.
Qed.

Lemma shard_entries_length (file_root : list Sample) (r W : nat) :
  file_root ≠ [] → (r < W)%nat →
  length (shard_entries file_root r W) = shard_length (length file_root) W.
Proof.
  intros Hne Hr. unfold shard_entries.
  pose proof (shard_own_length file_root r W ltac:(lia) Hr) as Hown.
  pose proof (shard_size_le_length (length file_root) W r ltac:(lia)) as Hle.
  set (own := take _ _) in *.
  rewrite length_app, length_fmap.
  destruct (last own) as [s|] eqn:Hlast.
  - rewrite length_replicate. lia.
  - destruct (file_root !! shard_begin (length file_root) W r) as [s|] eqn:Hfirst.
    + rewrite length_replicate. lia.
    + apply lookup_ge_None in Hfirst.
      pose proof (shard_begin_lt (length file_root) W r).
      destruct file_root; simpl in *; [done|lia].
Qed.



(** Every sample of the dataset is a sample of the slice of some shard. *)
Lemma readers_file_covers (file_root : list Sample) (w : nat) (s : Sample) :
  (0 < w)%nat → s ∈ file_root →
  ∃ r, (r < w)%nat
       ∧ readers_file file_root (Z.of_nat r) (Z.of_nat w)
         = Ok (shard_entries file_root r w)
       ∧ (s, false) ∈ shard_entries file_root r w.
Proof.
  intros Hw Hs. apply list_elem_of_lookup in Hs as [i Hi].
  pose proof (lookup_lt_Some _ _ _ Hi) as HiT.
  set (T := length file_root) in *.
  assert (∀ k, (i < shard_begin T w k)%nat →
               ∃ r, (r < k)%nat ∧ (shard_begin T w r ≤ i < shard_begin T w (r + 1))%nat)
    as Hfind.
  { induction k as [|k IH]; intros Hk.
    { unfold shard_begin in Hk. simpl in Hk. rewrite Nat.Div0.div_0_l in Hk. lia. }
    destruct (decide (i < shard_begin T w k)%nat) as [Hlt|Hge].
    - destruct (IH Hlt) as (r & ? & ?). exists r. split; [lia|done].
    - exists k. rewrite Nat.add_1_r. split; lia. }
  destruct (Hfind w) as (r & Hr & Hlo & Hhi); [by rewrite shard_begin_end|].
  exists r. split; [done|]. split.
  { unfold readers_file. rewrite decide_False by lia. by rewrite !Nat2Z.id. }
  unfold shard_entries. fold T. apply elem_of_app. left.
  apply list_elem_of_fmap. exists s. split; [done|].
  apply list_elem_of_lookup. exists (i - shard_begin T w r)%nat.
  rewrite lookup_take_lt by (unfold shard_size; lia).
  rewrite lookup_drop. rewrite <- Hi. f_equal. lia.
Qed.

Lemma iterator_length {A B : Type} (batch_size : nat)
    (pipe : list (Result (A * Z) * bool)) (pipe' : list (Result (B * Z) * bool)) :
  length pipe = length pipe' →
  length (DALIClassificationIterator batch_size pipe)
  = length (DALIClassificationIterator batch_size pipe').
Proof.
  intros Hlen. unfold DALIClassificationIterator.
  rewrite !length_fmap. by apply chunk_length.
Qed.

Lemma elem_of_concat {A : Type} (x : A) (ls : list (list A)) :
  x ∈ concat ls → ∃ l, l ∈ ls ∧ x ∈ l.
Proof.
  induction ls as [|l ls IH]; simpl; [by intros ?%elem_of_nil|].
  intros [Hx|Hx]%elem_of_app.
  - exists l. split; [left|done].
  - destruct (IH Hx) as (l' & ? & ?). exists l'. split; [by right|done].
Qed.

Lemma iterator_raises {A : Type} (batch_size : nat) (pipe : list (Result (A * Z) * bool))
    (e : Exn) (mark : bool) :
  (Err e, mark) ∈ pipe → ∃ e', Err e' ∈ DALIClassificationIterator batch_size pipe.
Proof.
  intros He.
  assert (concat (chunk batch_size [] pipe) = pipe) as Hc by apply chunk_concat.
  rewrite <- Hc in He.
  apply elem_of_concat in He as (entries & Hentries & He).
  destruct (rmap_has_err (fun entry : Result (A * Z) * bool => x <-? entry.1; Ok (x, entry.2))
              entries (Err e, mark) e He eq_refl) as [e' He'].
  exists e'. unfold DALIClassificationIterator.
  apply list_elem_of_fmap. exists entries. by rewrite He'.
Qed.

Lemma lockstep_lookup {X : Type} (n : nat) :
  ∀ (loaders : list (list X)) (j r : nat) (l : list X) (x : X),
    Forall (fun l => length l = n) loaders →
    loaders !! r = Some l → l !! j = Some x →
    ∃ items, lockstep n loaders !! j = Some items ∧ items !! r = Some x.
Proof.
  induction n as [|n IH]; intros loaders j r l x Hlen Hl Hx.
  - rewrite Forall_forall in Hlen.
    assert (length l = 0%nat) as H0 by (apply Hlen; by eapply list_elem_of_lookup_2).
    apply lookup_lt_Some in Hx. lia.
  - assert (omap head loaders = (fun l => default x (head l)) <$> loaders) as Hheads.
    { clear -Hlen. induction Hlen as [|l' ls Hl' _ IHl]; csimpl; [done|].
      destruct l' as [|y l']; [done|]. simpl. by rewrite IHl. }
    destruct j as [|j]; simpl.
    + eexists. split; [done|]. rewrite Hheads, list_lookup_fmap, Hl. simpl.
      destruct l; simplify_eq/=. done.
    + apply (IH (tail <$> loaders) j r (tail l) x).
      * apply Forall_fmap. eapply Forall_impl; [exact Hlen|].
        intros [|??] ?; simpl in *; lia.
      * by rewrite list_lookup_fmap, Hl.
      * by destruct l.
Qed.

Section AbortFacts.

Context {Image Input : Type}.
Variable decode : list Byte.byte → option Image.
Variable resize : Z → Image → Image.
Variable crop_mirror_normalize : Z → bool → Image → Input.
Variable model : list Input → Tensor2.
Variable criterion : Tensor2 → list Z → Qc.
Variable topk_row : nat → list Qc → list nat.

Lemma preprocess_corrupt (crop size : Z) (s : Sample) :
  decode (encoded s) = None →
  preprocess decode resize crop_mirror_normalize crop size s = Err CorruptImageError.
Proof. intros H. unfold preprocess. by rewrite H. Qed.

Lemma validate_step_raises (distributed : bool) (ms : list Meters)
    (items : list (Result (Batch Input))) (e : Exn) :
  Err e ∈ items →
  ∃ e', validate_step model criterion topk_row distributed ms items = Err e'.
Proof.
  intros He. unfold validate_step.
  destruct (rmap_has_err (next_forward model criterion topk_row) items (Err e) e He eq_refl)
    as [e' ->].
  by exists e'.
Qed.

Lemma validate_loop_raises (distributed : bool)
    (steps : list (list (Result (Batch Input)))) :
  ∀ (ms : list Meters) (items : list (Result (Batch Input))) (e : Exn),
    items ∈ steps → Err e ∈ items →
    ∃ e', validate_loop model criterion topk_row distributed ms steps = Err e'.
Proof.
  induction steps as [|st steps IH]; intros ms items e Hitems He.
  - by apply elem_of_nil in Hitems.
  - simpl. apply elem_of_cons in Hitems as [<-|Hitems].
    + destruct (validate_step_raises distributed ms items e He) as [e' ->]. by exists e'.
    + destruct (validate_step model criterion topk_row distributed ms st) as [ms'|e0];
        simpl; [|by exists e0].
      by apply (IH ms' items e).
Qed.

(** C9, as the code has it.  The pipeline has no substitution and records
    no data-quality event: on an undecodable sample the decoder's error is the
    result of preprocessing, it leaves the iterator and then [validate], which
    has no handler, so the evaluation run ends with an exception whenever the
    dataset holds an undecodable sample (for every world size, batch size and
    mode). *)
Theorem undecodable_sample_aborts (distributed : bool) (valdir : list Sample)
    (batch_size world_size : nat) (s : Sample) :
  (0 < world_size)%nat → s ∈ valdir → decode (encoded s) = None →
  preprocess decode resize crop_mirror_normalize 224 256 s = Err CorruptImageError
  ∧ ∃ e, evaluate decode resize crop_mirror_normalize model criterion topk_row
                  distributed valdir batch_size world_size = Err e.
Proof.
  intros HW Hs Hdec. split; [by apply preprocess_corrupt|].
  assert (valdir ≠ []) as Hne by (intros ->; by apply elem_of_nil in Hs).
  unfold evaluate.
  set (W := Z.of_nat world_size).
  set (pipe := fun r : nat =>
         (fun entry : Sample * bool =>
            (preprocess decode resize crop_mirror_normalize 224 256 entry.1, entry.2))
           <$> shard_entries valdir r world_size).
  set (loader := fun r : nat => DALIClassificationIterator batch_size (pipe r)).
  assert (∀ r, (r < world_size)%nat →
               readers_file valdir (Z.of_nat r) W = Ok (shard_entries valdir r world_size))
    as Hshard.
  { intros r Hr. unfold readers_file. rewrite decide_False by lia.
    unfold W. by rewrite !Nat2Z.id. }
  rewrite (rmap_ok _ loader).
  2:{ intros r Hr%elem_of_seq. unfold val_loader, create_dali_pipeline.
      by rewrite Hshard by lia. }
  simpl.
  set (loaders := loader <$> seq 0 world_size).
  set (n := match loaders with [] => 0%nat | l :: _ => length l end).
  assert (Forall (fun l => length l = n) loaders) as Hsame.
  { assert (∀ r r', (r < world_size)%nat → (r' < world_size)%nat →
                    length (loader r) = length (loader r')) as Heq.
    { intros r r' Hr Hr'. apply iterator_length. unfold pipe. rewrite !length_fmap.
      by rewrite !shard_entries_length. }
    apply Forall_forall. intros l Hl.
    apply list_elem_of_fmap in Hl as (r & -> & Hr%elem_of_seq).
    unfold n, loaders. destruct world_size as [|w]; [lia|].
    simpl. apply Heq; lia. }
  destruct (readers_file_covers valdir world_size s HW Hs) as (r & Hr & _ & Hin).
  destruct (iterator_raises batch_size (pipe r) CorruptImageError false) as [e' He'].
  { apply list_elem_of_fmap. exists (s, false). by rewrite preprocess_corrupt. }
  fold (loader r) in He'. apply list_elem_of_lookup in He' as [j Hj].
  destruct (lockstep_lookup n loaders j r (loader r) (Err e') Hsame) as (items & Hitems & Hitem);
    [|done|].
  { unfold loaders. rewrite list_lookup_fmap, lookup_seq_lt by done. done. }
  unfold validate_meters.
  eapply validate_loop_raises.
  - by eapply list_elem_of_lookup_2.
  - by eapply list_elem_of_lookup_2.
Qed.

End AbortFacts.

(** ** Every sample is counted once *)














Section EvaluationCounts.

Context {Image Input : Type}.
Variable decode : list Byte.byte → option Image.
Variable resize : Z → Image → Image.
Variable crop_mirror_normalize : Z → bool → Image → Input.
Variable model : list Input → Tensor2.
Variable criterion : Tensor2 → list Z → Qc.
Variable topk_row : nat → list Qc → list nat.




End EvaluationCounts.


(** The instance of the spec: T = 10, W = 3, batches of two.  The slices
    hold 3, 3 and 4 samples, every shard has 4 entries, and the ranks end
    with the counts 3, 3 and 4. *)
Example ten_samples_on_three_ranks :
  shard_size 10 3 <$> [0; 1; 2]%nat = [3; 3; 4]%nat
  ∧ (fun r => length (shard_entries ten_samples r 3)) <$> [0; 1; 2]%nat = [4; 4; 4]%nat
  ∧ rank_count 0 (demo_evaluate true ten_samples 2 3) = Some (Qn 3)
  ∧ rank_count 1 (demo_evaluate true ten_samples 2 3) = Some (Qn 3)
  ∧ rank_count 2 (demo_evaluate true ten_samples 2 3) = Some (Qn 4).
Proof. repeat split; try reflexivity; by_evaluation. Qed.

Lemma corrupt_sample_in_dataset : corrupt_sample ∈ ten_samples_one_corrupt.
Proof. apply list_elem_of_lookup. by exists 6%nat. Qed.

Lemma undecodable_sample_aborts_witness :
  preprocess demo_decode demo_resize demo_crop_mirror_normalize 224 256 corrupt_sample
  = Err CorruptImageError
  ∧ ∃ e, demo_evaluate true ten_samples_one_corrupt 2 3 = Err e.
Proof.
  apply (undecodable_sample_aborts demo_decode demo_resize demo_crop_mirror_normalize
           demo_model demo_criterion topk_stable true ten_samples_one_corrupt 2 3
           corrupt_sample).
  - lia.
  - exact corrupt_sample_in_dataset.
  - reflexivity.
Defined.

(** C9 fails on the code.  Ten samples, the seventh undecodable: the run
    ends with [CorruptImageError], on three ranks as on one, although nine
    valid samples are at hand. *)
Lemma corrupt_sample_ends_the_run :
  demo_decode (encoded corrupt_sample) = None
  ∧ demo_evaluate true ten_samples_one_corrupt 2 3 = Err CorruptImageError
  ∧ demo_evaluate false ten_samples_one_corrupt 4 1 = Err CorruptImageError
  ∧ rank_count 0 (demo_evaluate false ten_samples 4 1) = Some (Qn 10).
Proof. repeat split; try reflexivity; by_evaluation. Qed.

(** ** Shard configuration and resume *)

Section ReaderFacts.

Context {Image Input : Type}.
Variable decode : list Byte.byte → option Image.
Variable resize : Z → Image → Image.
Variable crop_mirror_normalize : Z → bool → Image → Input.

(** C7.  With world size [W] and shard id [S], building the sharded reader
    fails with [ConfigurationError] whenever [W < 1] or [S >= W]; so does
    [create_dali_pipeline], whose first step it is, and [val_loader]: no batch
    exists, nothing has been decoded. *)
Theorem bad_shard_configuration (data_dir : list Sample) (crop size : Z)
    (batch_size : nat) (S W : Z) :
  (W < 1 ∨ W ≤ S)%Z →
  readers_file data_dir S W = Err ConfigurationError
  ∧ create_dali_pipeline decode resize crop_mirror_normalize data_dir crop size S W
    = Err ConfigurationError
  ∧ val_loader decode resize crop_mirror_normalize data_dir batch_size S W
    = Err ConfigurationError.
Proof.
  intros HSW.
  assert (readers_file data_dir S W = Err ConfigurationError) as Hr.
  { unfold readers_file. rewrite decide_True; [done|]. lia. }
  unfold val_loader, create_dali_pipeline. by rewrite Hr.
Qed.

End ReaderFacts.

Lemma bad_shard_configuration_witness :
  readers_file ten_samples 3 3 = Err ConfigurationError
  ∧ create_dali_pipeline demo_decode demo_resize demo_crop_mirror_normalize
      ten_samples 224 256 3 3 = Err ConfigurationError
  ∧ val_loader demo_decode demo_resize demo_crop_mirror_normalize ten_samples 2 3 3
    = Err ConfigurationError.
Proof.
  apply (bad_shard_configuration demo_decode demo_resize demo_crop_mirror_normalize
           ten_samples 224 256 2 3 3).
  right. reflexivity.
Defined.

Section ResumeFacts.

Context {StateDict : Type}.

(** C8.  If the path names a regular file that unpickles to a dictionary with
    the four keys, resume returns with [start_epoch], [best_prec1], the model
    state and the optimizer state taken from it; if nothing exists at the
    path, resume returns normally and the state is the one before. *)
Theorem resume_restores_or_starts_fresh (fs : gmap string (Inode StateDict))
    (path : string) (st : RunState StateDict) :
  path ≠ EmptyString →
  (∀ (checkpoint : gmap string (PyVal StateDict)) epoch best model_sd optimizer_sd,
      fs !! path = Some (RegularFile (Some checkpoint)) →
      checkpoint !! "epoch" = Some epoch →
      checkpoint !! "best_prec1" = Some best →
      checkpoint !! "state_dict" = Some (VState model_sd) →
      checkpoint !! "optimizer" = Some (VState optimizer_sd) →
      main_resume fs path st
      = Returned {| start_epoch := epoch; best_prec1 := best;
                    model_state := model_sd; optimizer_state := optimizer_sd |} tt)
  ∧ (fs !! path = None → main_resume fs path st = Returned st tt).
Proof.
  intros Hpath. unfold main_resume. rewrite decide_False by done. split.
  - intros checkpoint epoch best model_sd optimizer_sd Hfile He Hb Hm Ho.
    unfold resume, isfile, torch_load, getitem. rewrite Hfile. simpl.
    rewrite He. simpl. rewrite Hb. simpl. rewrite Hm. simpl. rewrite Ho. simpl. done.
  - intros Hnone. unfold resume, isfile. by rewrite Hnone.
Qed.

End ResumeFacts.

Lemma resume_restores_or_starts_fresh_witness :
  (main_resume demo_fs "ckpt.pth" demo_state
   = Returned {| start_epoch := VInt 7; best_prec1 := VFloat (Qn 71);
                 model_state := 11%nat; optimizer_state := 12%nat |} tt)
  ∧ (main_resume demo_fs "none.pth" demo_state = Returned demo_state tt).
Proof.
  destruct (resume_restores_or_starts_fresh demo_fs "ckpt.pth" demo_state) as [Hload _];
    [done|].
  destruct (resume_restores_or_starts_fresh demo_fs "none.pth" demo_state) as [_ Hnone];
    [done|].
  split.
  - apply (Hload demo_checkpoint); reflexivity.
  - apply Hnone. reflexivity.
Defined.

(** ** Running averages *)

Lemma Qcdiv_between (lo hi s w : Qc) :
  0 < w → lo * w ≤ s → s ≤ hi * w → lo ≤ s / w ∧ s / w ≤ hi.
Proof.
  intros Hw Hlo Hhi.
  assert (w ≠ 0) as Hne by (intros ->; by apply (irreflexivity Qclt 0)).
  assert (s / w * w = s) as Hsw by (by field).
  split; apply (Qcmult_le_mono_pos_r _ _ w Hw); by rewrite Hsw.
Qed.

Lemma total_weight_cons (v n : Qc) (vns : list (Qc * Qc)) :
  total_weight ((v, n) :: vns) = n + total_weight vns.
Proof. reflexivity. Qed.

Lemma weighted_sum_cons (v n : Qc) (vns : list (Qc * Qc)) :
  weighted_sum ((v, n) :: vns) = v * n + weighted_sum vns.
Proof. reflexivity. Qed.

Lemma update_each_from (vns : list (Qc * Qc)) :
  ∀ m, 0 ≤ count m → Forall (fun vn => 0 < vn.2) vns →
       ∃ m', update_each m vns = Returned m' tt
             ∧ sum m' = sum m + weighted_sum vns
             ∧ count m' = count m + total_weight vns
             ∧ (vns ≠ [] → avg m' = sum m' / count m').
Proof.
  induction vns as [|[v n] vns IH]; intros m Hc Hpos.
  - exists m. unfold weighted_sum, total_weight, tensor_sum; simpl.
    by rewrite !Qcplus_0_r.
  - apply Forall_cons in Hpos as [Hn Hpos]. simpl in Hn.
    assert (0 < count m + n) as Hcn by (by apply Qcplus_nonneg_pos).
    simpl. rewrite update_returns by (intros Heq; rewrite Heq in Hcn;
                                      by apply (irreflexivity Qclt 0)).
    destruct (IH (updated m v n)) as (m' & Hrun & Hsum & Hcount & Havg);
      [by apply Qclt_le_weak|done|].
    exists m'. split; [done|]. simpl in Hsum, Hcount.
    rewrite weighted_sum_cons, total_weight_cons.
    split; [by rewrite Hsum, Qcplus_assoc|]. split; [by rewrite Hcount, Qcplus_assoc|].
    intros _. destruct vns as [|vn vns]; [|by apply Havg].
    simpl in Hrun. by injection Hrun as <-.
Qed.

(** X1.  A meter shows the weighted mean of all it was fed: after [reset],
    any non-empty sequence of updates with positive weights returns, and
    leaves [sum] at the sum of [v * n], [count] at the sum of [n] and [avg] at
    their quotient. *)
Theorem running_average_is_weighted_mean (m : AverageMeter) (vns : list (Qc * Qc)) :
  vns ≠ [] → Forall (fun vn => 0 < vn.2) vns →
  ∃ m', update_each (reset m) vns = Returned m' tt
        ∧ sum m' = weighted_sum vns
        ∧ count m' = total_weight vns
        ∧ avg m' = weighted_sum vns / total_weight vns.
Proof.
  intros Hne Hpos.
  destruct (update_each_from vns (reset m)) as (m' & Hrun & Hsum & Hcount & Havg);
    [done|done|].
  simpl in Hsum, Hcount. rewrite Qcplus_0_l in Hsum, Hcount.
  exists m'. rewrite <- Hsum, <- Hcount. auto.
Qed.

Lemma running_average_is_weighted_mean_witness :
  ∃ m', update_each (reset AverageMeter_init) [(Qn 50, Qn 2); (Qn 100, Qn 6)] = Returned m' tt
        ∧ sum m' = weighted_sum [(Qn 50, Qn 2); (Qn 100, Qn 6)]
        ∧ count m' = total_weight [(Qn 50, Qn 2); (Qn 100, Qn 6)]
        ∧ avg m' = weighted_sum [(Qn 50, Qn 2); (Qn 100, Qn 6)]
                   / total_weight [(Qn 50, Qn 2); (Qn 100, Qn 6)].
Proof.
  apply (running_average_is_weighted_mean AverageMeter_init [(Qn 50, Qn 2); (Qn 100, Qn 6)]).
  - discriminate.
  - repeat constructor.
Defined.

(** ** [reduce_tensor] *)

Lemma tensor_sum_scaled (n : Qc) (vs : list Qc) :
  weighted_sum ((fun v => (v, n)) <$> vs) = tensor_sum vs * n
  ∧ total_weight ((fun v => (v, n)) <$> vs) = Qn (length vs) * n.
Proof.
  induction vs as [|v vs [IHs IHw]].
  - unfold weighted_sum, total_weight, tensor_sum; simpl.
    by rewrite Qn_0, !Qcmult_0_l.
  - rewrite fmap_cons, weighted_sum_cons, total_weight_cons, IHs, IHw.
    change (length (v :: vs)) with (1 + length vs)%nat. rewrite Qn_add, Qn_1.
    change (tensor_sum (v :: vs)) with (v + tensor_sum vs).
    split; ring.
Qed.

(** X3.  What [reduce_tensor] returns, the sum over the ranks divided by the
    world size, is the sample-weighted mean of the per-rank values exactly
    when the weights cancel: if every rank holds the same non-zero number [n]
    of samples, it equals the sum of [v * n] over the sum of [n]. *)
Theorem reduce_tensor_equal_counts (vs : list Qc) (n : Qc) :
  vs ≠ [] → n ≠ 0 →
  reduce_tensor (length vs) vs
  = weighted_sum ((fun v => (v, n)) <$> vs) / total_weight ((fun v => (v, n)) <$> vs).
Proof.
  intros Hvs Hn. destruct (tensor_sum_scaled n vs) as [-> ->].
  unfold reduce_tensor, all_reduce_sum.
  assert (Qn (length vs) ≠ 0) as HW by (apply Qn_neq_0; by destruct vs).
  by field.
Qed.

Lemma reduce_tensor_equal_counts_witness :
  reduce_tensor (length [Qn 5; Qn 11]) [Qn 5; Qn 11]
  = weighted_sum ((fun v => (v, Qn 4)) <$> [Qn 5; Qn 11])
    / total_weight ((fun v => (v, Qn 4)) <$> [Qn 5; Qn 11]).
Proof.
  apply (reduce_tensor_equal_counts [Qn 5; Qn 11] (Qn 4)).
  - discriminate.
  - by_evaluation.
Defined.

Lemma tensor_sum_between (lo hi : Qc) (vs : list Qc) :
  Forall (fun v => lo ≤ v ∧ v ≤ hi) vs →
  lo * Qn (length vs) ≤ tensor_sum vs ∧ tensor_sum vs ≤ hi * Qn (length vs).
Proof.
  induction 1 as [|v vs [Hlo Hhi] _ [IHlo IHhi]].
  - unfold tensor_sum; simpl. by rewrite Qn_0, !Qcmult_0_r.
  - change (length (v :: vs)) with (1 + length vs)%nat. rewrite Qn_add, Qn_1.
    change (tensor_sum (v :: vs)) with (v + tensor_sum vs).
    rewrite !Qcmult_plus_distr_r, !Qcmult_1_r.
    split; by apply Qcplus_le_compat.
Qed.

(** X4.  The reduced value lies within the range of the values the ranks
    contributed. *)
Theorem reduce_tensor_between (vs : list Qc) (lo hi : Qc) :
  vs ≠ [] → Forall (fun v => lo ≤ v ∧ v ≤ hi) vs →
  lo ≤ reduce_tensor (length vs) vs ∧ reduce_tensor (length vs) vs ≤ hi.
Proof.
  intros Hvs Hb. destruct (tensor_sum_between lo hi vs Hb).
  unfold reduce_tensor, all_reduce_sum. apply Qcdiv_between; [|done|done].
  apply Qn_pos. destruct vs; simpl; [done|lia].
Qed.

Lemma reduce_tensor_between_witness :
  Qn 5 ≤ reduce_tensor (length [Qn 5; Qn 11]) [Qn 5; Qn 11]
  ∧ reduce_tensor (length [Qn 5; Qn 11]) [Qn 5; Qn 11] ≤ Qn 11.
Proof.
  apply (reduce_tensor_between [Qn 5; Qn 11] (Qn 5) (Qn 11)).
  - discriminate.
  - repeat constructor; by_evaluation.
Defined.

(** ** [accuracy]: when it returns, and the range of what it returns *)

Lemma py_max_elem (ks : list nat) (maxk : nat) : py_max ks = Ok maxk → maxk ∈ ks.
Proof.
  destruct ks as [|k0 ks]; simpl; [done|]. intros [= <-].
  induction ks as [|k ks IH]; simpl; [by left|].
  destruct (Nat.max_spec k (foldr Nat.max k0 ks)) as [[_ ->]|[_ ->]].
  - apply elem_of_cons in IH as [->|IH]; [by left|by do 2 right].
  - right. by left.
Qed.

Lemma rmap_first_err {A B : Type} (f : A → Result B) (x : A) (xs : list A) (e : Exn) :
  f x = Err e → rmap f (x :: xs) = Err e.
Proof. intros H. simpl. by rewrite H. Qed.

Lemma hits_le (tops : list (list nat)) (target : list Z) :
  (hits tops target ≤ length target)%nat.
Proof.
  unfold hits. revert target. induction tops as [|top tops IH]; intros [|t target]; simpl;
    try lia.
  specialize (IH target). unfold indicator at 1. destruct (decide _); lia.
Qed.

Lemma hits_all (tops : list (list nat)) (target : list Z) :
  length tops = length target →
  Forall2 (fun top t => t ∈ Z.of_nat <$> top) tops target →
  hits tops target = length target.
Proof.
  intros _ H. unfold hits. induction H as [|top t tops target Hin _ IH]; simpl; [done|].
  rewrite IH. unfold indicator at 1. by rewrite decide_True.
Qed.

Lemma correct_prefix_le (correct : list (list bool)) (k k' : nat) :
  (k ≤ k')%nat →
  tensor_sum (float_ <$> concat (take k correct))
  ≤ tensor_sum (float_ <$> concat (take k' correct)).
Proof.
  intros Hkk. replace k' with (k + (k' - k))%nat by lia. rewrite <- take_take_drop.
  rewrite concat_app, fmap_app, tensor_sum_app.
  rewrite <- (Qcplus_0_r (tensor_sum _)) at 1.
  apply Qcplus_le_mono_l, tensor_sum_float_nonneg.
Qed.

Section AccuracyEdges.

Variable topk_row : nat → list Qc → list nat.

(** X5.  When [accuracy] raises and when it returns.  An empty [topk] makes
    [max] raise [ValueError]; a [k] above the number of classes makes
    [topk] raise; a label vector that has neither one label per row nor a
    single label makes [expand_as] raise; an empty batch divides by zero.
    In all other cases, and only then, [accuracy] returns. *)
Theorem accuracy_failure_modes (output : Tensor2) (target : list Z) (ks : list nat) :
  (ks = [] → accuracy topk_row output target ks = Err ValueError)
  ∧ (∀ maxk, py_max ks = Ok maxk → (ncols output < maxk)%nat →
             accuracy topk_row output target ks = Err RuntimeError)
  ∧ (∀ maxk, py_max ks = Ok maxk → (maxk ≤ ncols output)%nat →
             length target ≠ length (rows output) → length target ≠ 1%nat →
             accuracy topk_row output target ks = Err RuntimeError)
  ∧ (∀ maxk, py_max ks = Ok maxk → (maxk ≤ ncols output)%nat →
             target = [] → rows output = [] →
             accuracy topk_row output target ks = Err ZeroDivisionError)
  ∧ (returns (accuracy topk_row output target ks)
     ↔ ks ≠ [] ∧ (∀ k, k ∈ ks → (k ≤ ncols output)%nat)
       ∧ (length target = length (rows output) ∨ length target = 1%nat)
       ∧ target ≠ []).
Proof.
  assert (∀ maxk, py_max ks = Ok maxk → (ncols output < maxk)%nat →
                  accuracy topk_row output target ks = Err RuntimeError) as Hwide.
  { intros maxk Hmax Hk. unfold accuracy. rewrite Hmax. simpl.
    unfold tensor_topk. by rewrite decide_False by lia. }
  assert (∀ maxk, py_max ks = Ok maxk → (maxk ≤ ncols output)%nat →
                  length target ≠ length (rows output) → length target ≠ 1%nat →
                  accuracy topk_row output target ks = Err RuntimeError) as Hshape.
  { intros maxk Hmax Hk Hlen H1. unfold accuracy. rewrite Hmax. simpl.
    unfold tensor_topk. rewrite decide_True by done. simpl.
    unfold expand_as. rewrite decide_False by done.
    by destruct target as [|t [|t' target]]. }
  assert (∀ maxk, py_max ks = Ok maxk → (maxk ≤ ncols output)%nat →
                  target = [] → rows output = [] →
                  accuracy topk_row output target ks = Err ZeroDivisionError) as Hempty.
  { intros maxk Hmax Hk -> Hrows. unfold accuracy. rewrite Hmax. simpl.
    unfold tensor_topk. rewrite decide_True by done. simpl.
    unfold expand_as. rewrite Hrows. simpl.
    destruct ks as [|k ks]; [done|]. by apply rmap_first_err. }
  split; [by intros ->|]. split; [done|]. split; [done|]. split; [done|].
  split.
  - intros [res Hres].
    destruct (py_max ks) as [maxk|e] eqn:Hmax.
    2:{ destruct ks; [|done]. unfold accuracy in Hres. by rewrite Hmax in Hres. }
    assert (ks ≠ []) as Hks by (by intros ->).
    destruct (decide (maxk ≤ ncols output)%nat) as [Hk|Hk].
    2:{ rewrite (Hwide maxk) in Hres by (done || lia). done. }
    split; [done|]. split.
    { intros k Hin. pose proof (py_max_ge ks maxk k Hmax Hin). lia. }
    destruct (decide (length target = length (rows output))) as [Hlen|Hlen].
    + split; [by left|]. intros ->.
      rewrite (Hempty maxk) in Hres; try done.
      symmetry in Hlen. by apply nil_length_inv in Hlen.
    + destruct (decide (length target = 1%nat)) as [H1|H1].
      * split; [by right|]. by intros ->.
      * by rewrite (Hshape maxk) in Hres.
  - intros (Hks & Hcols & Hlen & Hne).
    destruct (py_max ks) as [maxk|e] eqn:Hmax; [|by destruct ks].
    pose proof (Hcols maxk (py_max_elem ks maxk Hmax)) as Hk.
    unfold accuracy. rewrite Hmax. simpl.
    unfold tensor_topk. rewrite decide_True by done. simpl.
    assert (∃ tgt, expand_as target maxk (length (rows output)) = Ok tgt) as [tgt ->].
    { unfold expand_as. case_decide; [by eexists|].
      destruct Hlen as [?|H1]; [done|].
      destruct target as [|t [|t' target]]; try done. by eexists. }
    simpl. eexists. apply rmap_ok. intros k _. unfold py_div.
    rewrite decide_False; [done|]. by destruct target.
Qed.

(** X6.  Precision grows with [k]: for [k <= k'] within the number of
    classes, [accuracy(output, target, (k, k'))] returns [p, p'] with
    [p <= p'], however [topk] orders tied scores. *)
Theorem accuracy_monotone_in_k (output : Tensor2) (target : list Z) (k k' : nat) :
  (k ≤ k')%nat → (k' ≤ ncols output)%nat →
  length target = length (rows output) → target ≠ [] →
  ∃ p p', accuracy topk_row output target [k; k'] = Ok [p; p'] ∧ p ≤ p'.
Proof.
  intros Hkk Hcols Hlen Hne.
  rewrite (accuracy_computes topk_row output target [k; k'] k');
    [|simpl; f_equal; lia|done..].
  eexists _, _. split; [reflexivity|].
  apply Qcmult_le_mono_nonneg_r.
  - apply Qcmult_nonneg_nonneg; [apply Qn_nonneg|].
    apply Qclt_le_weak, Qcinv_pos, Qn_pos. destruct target; simpl; [done|lia].
  - by apply correct_prefix_le.
Qed.

(** X7.  A label vector of length one is broadcast over the batch and the
    count of hits is divided by 1, not by the number of rows: for a batch of
    [B] rows [accuracy] returns [100 * hits], which can be as much as
    [100 * B]. *)
Theorem accuracy_single_label_broadcast (output : Tensor2) (t : Z) (ks : list nat)
    (maxk : nat) :
  py_max ks = Ok maxk → (maxk ≤ ncols output)%nat →
  Forall (fun row => NoDup (topk_row maxk row) ∧ length (topk_row maxk row) = maxk)
         (rows output) →
  accuracy topk_row output [t] ks
  = Ok ((fun k => Qn 100 * Qn (hits ((fun row => take k (topk_row maxk row)) <$> rows output)
                                    (replicate (length (rows output)) t))) <$> ks).
Proof.
  intros Hmax Hcols Htop. unfold accuracy. rewrite Hmax. simpl.
  unfold tensor_topk. rewrite decide_True by done. simpl.
  assert (expand_as [t] maxk (length (rows output))
          = Ok (replicate maxk (replicate (length (rows output)) t))) as ->.
  { unfold expand_as. case_decide as Hl; [|done]. simpl in Hl. by rewrite <- Hl. }
  simpl. apply rmap_ok. intros k Hk. unfold py_div.
  simpl. f_equal.
  assert (k ≤ maxk)%nat as Hkm by (by eapply py_max_ge).
  rewrite correct_count; [|done|].
  - rewrite Qn_1. replace (sum_list _) with
      (hits ((fun row => take k (topk_row maxk row)) <$> rows output)
            (replicate (length (rows output)) t)); [by field|].
    unfold hits. rewrite !zip_with_fmap_l.
    apply sum_list_zip_with_ext. intros row t' _. by rewrite fmap_take.
  - apply Forall_fmap. eapply Forall_impl; [exact Htop|]. intros row [Hnd Hl]. simpl.
    split; [|by rewrite length_fmap]. apply NoDup_fmap_2; [apply _|done].
Qed.

Hypothesis topk_row_ok :
  ∀ k row, (k ≤ length row)%nat → is_topk row k (topk_row k row).

Lemma accuracy_as_hits (output : Tensor2) (target : list Z) (ks : list nat) (maxk : nat) :
  wf_tensor output → py_max ks = Ok maxk → (maxk ≤ ncols output)%nat →
  length target = length (rows output) → target ≠ [] →
  accuracy topk_row output target ks
  = Ok ((fun k => Qn 100 * (Qn (hits ((fun row => take k (topk_row maxk row)) <$> rows output)
                                     target) / Qn (length target))) <$> ks).
Proof.
  intros Hwf Hmax Hcols Hlen Hne.
  rewrite (accuracy_computes topk_row output target ks maxk) by done.
  f_equal. apply list_fmap_ext. intros _ k Hk%list_elem_of_lookup_2.
  assert (k ≤ maxk)%nat as Hkm by (by eapply py_max_ge).
  rewrite correct_count; [|done|].
  - assert (Qn (length target) ≠ 0) as HB by (apply Qn_neq_0; by destruct target).
    replace (sum_list _) with
      (hits ((fun row => take k (topk_row maxk row)) <$> rows output) target); [by field|].
    unfold hits. rewrite !zip_with_fmap_l.
    apply sum_list_zip_with_ext. intros row t _. by rewrite fmap_take.
  - apply Forall_fmap. eapply Forall_impl; [exact Hwf|]. intros row Hrow. simpl in *.
    destruct (topk_row_ok maxk row) as [Hl Hnd _ _ _]; [lia|].
    split; [|by rewrite length_fmap]. apply NoDup_fmap_2; [apply _|done].
Qed.

Lemma percent_between (h b : nat) :
  (h ≤ b)%nat → b ≠ 0%nat →
  0 ≤ Qn 100 * (Qn h / Qn b) ∧ Qn 100 * (Qn h / Qn b) ≤ Qn 100.
Proof.
  intros Hh Hb.
  assert (0 < Qn b) as Hpos by (apply Qn_pos; lia).
  destruct (Qcdiv_between 0 1 (Qn h) (Qn b) Hpos) as [H0 H1].
  - rewrite Qcmult_0_l. apply Qn_nonneg.
  - rewrite Qcmult_1_l. unfold Qn. apply (proj1 (Z2Qc_inj_le _ _)). lia.
  - split.
    + apply Qcmult_nonneg_nonneg; [apply Qn_nonneg|done].
    + rewrite <- (Qcmult_1_r (Qn 100)) at 2.
      apply Qcmult_le_mono_nonneg_l; [apply Qn_nonneg|done].
Qed.

(** X8.  With one label per row, every precision [accuracy] returns is a
    percentage: one value per [k], each between 0 and 100. *)
Theorem accuracy_within_0_100 (output : Tensor2) (target : list Z) (ks : list nat)
    (maxk : nat) :
  wf_tensor output → py_max ks = Ok maxk → (maxk ≤ ncols output)%nat →
  length target = length (rows output) → target ≠ [] →
  ∃ res, accuracy topk_row output target ks = Ok res
         ∧ length res = length ks
         ∧ Forall (fun p => 0 ≤ p ∧ p ≤ Qn 100) res.
Proof.
  intros Hwf Hmax Hcols Hlen Hne. eexists. split; [by apply accuracy_as_hits|].
  split; [by rewrite length_fmap|].
  apply Forall_fmap, Forall_forall. intros k _. simpl.
  apply percent_between; [apply hits_le|by destruct target].
Qed.

Lemma accuracy_all_hit (output : Tensor2) (target : list Z) (k : nat) :
  wf_tensor output → (k ≤ ncols output)%nat →
  length target = length (rows output) → target ≠ [] →
  Forall2 (fun row t => t ∈ Z.of_nat <$> take k (topk_row k row)) (rows output) target →
  accuracy topk_row output target [k] = Ok [Qn 100].
Proof.
  intros Hwf Hcols Hlen Hne Hall.
  rewrite (accuracy_as_hits output target [k] k) by done. simpl.
  rewrite hits_all.
  - do 2 f_equal. assert (Qn (length target) ≠ 0) by (apply Qn_neq_0; by destruct target).
    by field.
  - by rewrite length_fmap.
  - by apply Forall2_fmap_l.
Qed.

Lemma nodup_in_range_full (l : list nat) (n j : nat) :
  NoDup l → length l = n → (∀ i, i ∈ l → (i < n)%nat) → (j < n)%nat → j ∈ l.
Proof.
  intros Hnd Hlen Hrange Hj.
  assert (l ⊆+ seq 0 n) as Hsub.
  { apply NoDup_submseteq; [done|]. intros i Hi. apply elem_of_seq. specialize (Hrange i Hi). lia. }
  assert (l ≡ₚ seq 0 n) as Hperm.
  { apply submseteq_length_Permutation; [done|]. by rewrite length_seq, Hlen. }
  rewrite Hperm. apply elem_of_seq. lia.
Qed.

(** X9.  With [k] the number of classes and every label a class index,
    precision is 100: the label is always among the [k] predictions. *)
Theorem accuracy_over_all_classes (output : Tensor2) (target : list Z) :
  wf_tensor output → length target = length (rows output) → target ≠ [] →
  Forall (fun t => (0 ≤ t < Z.of_nat (ncols output))%Z) target →
  accuracy topk_row output target [ncols output] = Ok [Qn 100].
Proof.
  intros Hwf Hlen Hne Hrange. apply accuracy_all_hit; try done.
  apply Forall2_same_length_lookup_2; [done|].
  intros i row t Hrow Ht.
  assert (length row = ncols output) as Hw.
  { unfold wf_tensor in Hwf. rewrite Forall_forall in Hwf.
    apply Hwf. by eapply list_elem_of_lookup_2. }
  rewrite Forall_forall in Hrange.
  pose proof (Hrange t (list_elem_of_lookup_2 _ _ _ Ht)) as Htr.
  destruct (topk_row_ok (ncols output) row) as [Hl Hnd Hin _ _]; [lia|].
  rewrite take_ge by lia.
  apply list_elem_of_fmap. exists (Z.to_nat t). split; [lia|].
  apply (nodup_in_range_full _ (ncols output)); try done; [|lia].
  intros j Hj. specialize (Hin j Hj). lia.
Qed.

(** X10.  When the label of every row is the position of its one strictly
    highest score, precision is 100 for every [k] from 1 to the number of
    classes, whatever [topk] does with the remaining ties. *)
Theorem accuracy_label_strictly_best (output : Tensor2) (target : list Z) (k : nat) :
  wf_tensor output → (1 ≤ k)%nat → (k ≤ ncols output)%nat →
  Forall2 strictly_best (rows output) target → target ≠ [] →
  accuracy topk_row output target [k] = Ok [Qn 100].
Proof.
  intros Hwf Hk1 Hcols Hbest Hne.
  pose proof (Forall2_length _ _ _ Hbest) as Hlen.
  apply accuracy_all_hit; try done.
  apply Forall2_same_length_lookup_2; [done|].
  intros i row t Hrow Ht.
  assert (length row = ncols output) as Hw.
  { unfold wf_tensor in Hwf. rewrite Forall_forall in Hwf.
    apply Hwf. by eapply list_elem_of_lookup_2. }
  destruct (Forall2_lookup_lr _ _ _ _ _ _ Hbest Hrow Ht) as (j & -> & Hj & Hstrict).
  destruct (topk_row_ok k row) as [Hl Hnd Hin _ Hdom]; [lia|].
  rewrite take_ge by lia.
  apply list_elem_of_fmap. exists j. split; [done|].
  destruct (decide (j ∈ topk_row k row)) as [|Hout]; [done|exfalso].
  destruct (topk_row k row) as [|i0 idxs] eqn:Htop; [simpl in Hl; lia|].
  assert (i0 ∈ i0 :: idxs) as Hi0 by left.
  assert (i0 ≠ j) as Hneq by (intros ->; by destruct Hout).
  pose proof (Hdom i0 j Hi0 Hj Hout) as Hle.
  pose proof (Hstrict i0 (Hin i0 Hi0) Hneq) as Hlt.
  by apply Qcle_not_lt in Hle.
Qed.

End AccuracyEdges.

Lemma accuracy_monotone_in_k_witness :
  ∃ p p', accuracy topk_stable T3 [1; 2; 2; 2]%Z [1; 3]%nat = Ok [p; p'] ∧ p ≤ p'.
Proof.
  apply (accuracy_monotone_in_k topk_stable T3 [1; 2; 2; 2]%Z 1 3).
  - lia.
  - simpl. lia.
  - reflexivity.
  - discriminate.
Defined.

Lemma accuracy_single_label_broadcast_witness :
  accuracy topk_stable T3 [2]%Z [1; 2]%nat
  = Ok ((fun k => Qn 100 * Qn (hits ((fun row => take k (topk_stable 2 row)) <$> rows T3)
                                    (replicate 4 2%Z))) <$> [1; 2]%nat).
Proof.
  apply (accuracy_single_label_broadcast topk_stable T3 2%Z [1; 2]%nat 2).
  - reflexivity.
  - simpl. lia.
  - apply Forall_forall. intros row Hrow.
    destruct (topk_stable_ok 2 row) as [Hl Hnd _ _ _]; [|done].
    pose proof wf_T3 as Hwf. unfold wf_tensor in Hwf. rewrite Forall_forall in Hwf.
    rewrite (Hwf row Hrow). simpl. lia.
Defined.

Lemma accuracy_within_0_100_witness :
  ∃ res, accuracy topk_stable T3 [1; 2; 2; 2]%Z [1; 2]%nat = Ok res
         ∧ length res = 2%nat
         ∧ Forall (fun p => 0 ≤ p ∧ p ≤ Qn 100) res.
Proof.
  apply (accuracy_within_0_100 topk_stable topk_stable_ok T3 [1; 2; 2; 2]%Z [1; 2]%nat 2).
  - exact wf_T3.
  - reflexivity.
  - simpl. lia.
  - reflexivity.
  - discriminate.
Defined.

Lemma accuracy_over_all_classes_witness :
  accuracy topk_stable T3 [1; 2; 2; 2]%Z [3%nat] = Ok [Qn 100].
Proof.
  apply (accuracy_over_all_classes topk_stable topk_stable_ok T3 [1; 2; 2; 2]%Z).
  - exact wf_T3.
  - reflexivity.
  - discriminate.
  - simpl. repeat (apply Forall_cons; split; [lia|]). apply Forall_nil_2.
Defined.

Lemma accuracy_label_strictly_best_witness :
  accuracy topk_stable {| ncols := 3; rows := [[Qn 1; Qn 5; Qn 3]; [Qn 0; Qn 0; Qn 9]] |}
           [1; 2]%Z [2%nat]
  = Ok [Qn 100].
Proof.
  apply (accuracy_label_strictly_best topk_stable topk_stable_ok
           {| ncols := 3; rows := [[Qn 1; Qn 5; Qn 3]; [Qn 0; Qn 0; Qn 9]] |} [1; 2]%Z 2).
  - unfold wf_tensor. simpl. by repeat constructor.
  - lia.
  - simpl. lia.
  - simpl. apply Forall2_cons. split; [|apply Forall2_cons; split; [|apply Forall2_nil_2]].
    + exists 1%nat. split; [reflexivity|]. split; [simpl; lia|].
      intros [|[|[|i]]] Hi Hne; simpl in Hi; try lia; by_evaluation.
    + exists 2%nat. split; [reflexivity|]. split; [simpl; lia|].
      intros [|[|[|i]]] Hi Hne; simpl in Hi; try lia; by_evaluation.
  - discriminate.
Defined.

(** ** What [validate] returns *)

Section ValidateFacts.

Context {Input : Type}.
Variable model : list Input → Tensor2.
Variable criterion : Tensor2 → list Z → Qc.
Variable topk_row : nat → list Qc → list nat.

Lemma recorded_nonneg (distributed : bool) (bs : list (Batch Input)) (m : Meters)
    (b : Batch Input) :
  meters_nonneg m → meters_nonneg (recorded model criterion topk_row distributed bs m b).
Proof.
  intros (H1 & H2 & H3). unfold meters_nonneg, recorded; simpl.
  repeat split; apply Qcplus_nonneg_nonneg; auto using Qn_nonneg.
Qed.

Lemma recorded_top1 (distributed : bool) (bs : list (Batch Input)) (m : Meters)
    (b : Batch Input) :
  top1 (recorded model criterion topk_row distributed bs m b)
  = updated (top1 m) (fed_value distributed (batch_prec1 model criterion topk_row) bs b) (Qn (length (data b))).
Proof.
  unfold recorded, fed_value, batch_prec1; simpl.
  by rewrite <- !list_fmap_compose.
Qed.

Lemma recorded_top5 (distributed : bool) (bs : list (Batch Input)) (m : Meters)
    (b : Batch Input) :
  top5 (recorded model criterion topk_row distributed bs m b)
  = updated (top5 m) (fed_value distributed (batch_prec5 model criterion topk_row) bs b) (Qn (length (data b))).
Proof.
  unfold recorded, fed_value, batch_prec5; simpl.
  by rewrite <- !list_fmap_compose.
Qed.

Lemma fed_sum_cons (distributed : bool) (sel : Batch Input → Qc)
    (bs : list (Batch Input)) (steps : list (list (Batch Input))) (r : nat) (b : Batch Input) :
  bs !! r = Some b →
  fed_sum distributed sel (bs :: steps) r
  = fed_value distributed sel bs b * Qn (length (data b)) + fed_sum distributed sel steps r.
Proof. intros Hb. unfold fed_sum. rewrite fmap_cons, Hb. reflexivity. Qed.

Lemma delivered_cons (bs : list (Batch Input)) (steps : list (list (Batch Input)))
    (r : nat) (b : Batch Input) :
  bs !! r = Some b → delivered (bs :: steps) r = (length (data b) + delivered steps r)%nat.
Proof. intros Hb. unfold delivered. rewrite fmap_cons, Hb. reflexivity. Qed.

Lemma validate_loop_sums (distributed : bool) (steps : list (list (Batch Input))) :
  ∀ ms : list Meters,
    Forall (fun bs => length bs = length ms ∧ Forall (wf_batch model) bs) steps →
    Forall meters_nonneg ms →
    ∃ ms', validate_loop model criterion topk_row distributed ms (delivering steps) = Ok ms'
           ∧ length ms' = length ms
           ∧ ∀ r m m', ms !! r = Some m → ms' !! r = Some m' →
               tracks (top1 m) (top1 m') (fed_sum distributed (batch_prec1 model criterion topk_row) steps r)
                      (delivered steps r) (steps ≠ [])
               ∧ tracks (top5 m) (top5 m') (fed_sum distributed (batch_prec5 model criterion topk_row) steps r)
                        (delivered steps r) (steps ≠ []).
Proof.
  induction steps as [|bs steps IH]; intros ms Hsteps Hms.
  - exists ms. split; [done|]. split; [done|].
    intros r m m' Hm Hm'. rewrite Hm in Hm'. injection Hm' as <-.
    unfold tracks, fed_sum, delivered, tensor_sum; simpl.
    rewrite Qn_0, !Qcplus_0_r. by repeat split.
  - apply Forall_cons in Hsteps as [[Hlen Hbs] Hsteps].
    unfold delivering. rewrite fmap_cons. fold (delivering steps).
    simpl. rewrite validate_step_ok by done. simpl.
    set (ms1 := zip_with (recorded model criterion topk_row distributed bs) ms bs).
    assert (length ms1 = length ms) as Hlen1.
    { unfold ms1. rewrite length_zip_with. lia. }
    destruct (IH ms1) as (ms' & Hrun & Hlen' & Htr).
    + by rewrite Hlen1.
    + apply Forall_forall. intros m1 Hm1.
      apply list_elem_of_lookup in Hm1 as [r Hr].
      apply lookup_zip_with_Some in Hr as (m & b & -> & Hm & Hb).
      apply recorded_nonneg. rewrite Forall_forall in Hms.
      apply Hms. by eapply list_elem_of_lookup_2.
    + exists ms'. split; [done|]. split; [lia|].
      intros r m m' Hm Hm'.
      destruct (lookup_lt_is_Some_2 bs r) as [b Hb].
      { rewrite Hlen. by eapply lookup_lt_Some. }
      assert (ms1 !! r = Some (recorded model criterion topk_row distributed bs m b)) as Hm1.
      { unfold ms1. apply lookup_zip_with_Some. eauto. }
      destruct (Htr r _ m' Hm1 Hm') as [(Hs1 & Hc1 & Ha1) (Hs5 & Hc5 & Ha5)].
      rewrite recorded_top1 in Hs1, Hc1. rewrite recorded_top5 in Hs5, Hc5.
      simpl in Hs1, Hc1, Hs5, Hc5.
      unfold tracks.
      rewrite !(fed_sum_cons _ _ _ _ _ b Hb), (delivered_cons _ _ _ b Hb), Qn_add.
      assert (steps = [] → m' = recorded model criterion topk_row distributed bs m b)
        as Hlast.
      { intros ->. simpl in Hrun. injection Hrun as <-. rewrite Hm1 in Hm'. by injection Hm'. }
      split; (split; [|split]).
      * rewrite Hs1. ring.
      * rewrite Hc1. ring.
      * intros _. destruct steps as [|bs' steps']; [|by apply Ha1].
        rewrite (Hlast eq_refl), recorded_top1. reflexivity.
      * rewrite Hs5. ring.
      * rewrite Hc5. ring.
      * intros _. destruct steps as [|bs' steps']; [|by apply Ha5].
        rewrite (Hlast eq_refl), recorded_top5. reflexivity.
Qed.

Lemma forward_value_computes (b : Batch Input) :
  wf_batch model b →
  ∃ c1 c5,
    0 ≤ c1 ∧ c1 ≤ c5
    ∧ batch_prec1 model criterion topk_row b = c1 * (Qn 100 / Qn (length (labels b)))
    ∧ batch_prec5 model criterion topk_row b = c5 * (Qn 100 / Qn (length (labels b))).
Proof.
  intros (Hd & Hl & Hc & Hlen). unfold batch_prec1, batch_prec5, forward_value, forward.
  rewrite (accuracy_computes topk_row (model (data b)) (labels b) [1; 5]%nat 5) by done.
  set (correct := eq_ _ _).
  exists (tensor_sum (float_ <$> concat (take 1 correct))),
         (tensor_sum (float_ <$> concat (take 5 correct))).
  split; [apply tensor_sum_float_nonneg|].
  split; [apply correct_prefix_le; lia|]. by split.
Qed.

Lemma batch_prec_ordered (b : Batch Input) :
  wf_batch model b →
  0 ≤ batch_prec1 model criterion topk_row b
  ∧ batch_prec1 model criterion topk_row b ≤ batch_prec5 model criterion topk_row b.
Proof.
  intros Hwf. destruct (forward_value_computes b Hwf) as (c1 & c5 & H0 & Hle & -> & ->).
  assert (0 ≤ Qn 100 / Qn (length (labels b))) as Hscale.
  { apply Qcmult_nonneg_nonneg; [apply Qn_nonneg|].
    apply Qclt_le_weak, Qcinv_pos, Qn_pos.
    destruct Hwf as (_ & Hl & _). destruct (labels b); simpl; [done|lia]. }
  split; [by apply Qcmult_nonneg_nonneg|by apply Qcmult_le_mono_nonneg_r].
Qed.

Hypothesis topk_row_ok :
  ∀ k row, (k ≤ length row)%nat → is_topk row k (topk_row k row).

Lemma batch_prec_as_hits (b : Batch Input) :
  tensor_batch model b →
  batch_prec1 model criterion topk_row b
  = Qn 100 * (Qn (batch_hits model topk_row 1 b) / Qn (length (data b)))
  ∧ batch_prec5 model criterion topk_row b
    = Qn 100 * (Qn (batch_hits model topk_row 5 b) / Qn (length (data b))).
Proof.
  intros ((Hd & Hl & Hc & Hlen) & Hwf & Hsame).
  unfold batch_prec1, batch_prec5, forward_value, forward, batch_hits.
  rewrite (accuracy_as_hits topk_row topk_row_ok (model (data b)) (labels b) [1; 5]%nat 5)
    by done.
  simpl. by rewrite Hsame.
Qed.

Lemma batch_prec5_le_100 (b : Batch Input) :
  tensor_batch model b → batch_prec5 model criterion topk_row b ≤ Qn 100.
Proof.
  intros Hb. destruct (batch_prec_as_hits b Hb) as [_ ->].
  destruct Hb as ((Hd & _) & _ & Hsame).
  apply percent_between; [rewrite Hsame; apply hits_le|by destruct (data b)].
Qed.
Lemma fed_value_ordered (distributed : bool) (bs : list (Batch Input)) (b : Batch Input) :
  Forall (tensor_batch model) bs → b ∈ bs →
  0 ≤ fed_value distributed (batch_prec1 model criterion topk_row) bs b
  ∧ fed_value distributed (batch_prec1 model criterion topk_row) bs b
    ≤ fed_value distributed (batch_prec5 model criterion topk_row) bs b
  ∧ fed_value distributed (batch_prec5 model criterion topk_row) bs b ≤ Qn 100.
Proof.
  intros Hbs Hb. rewrite Forall_forall in Hbs.
  assert (∀ b', b' ∈ bs →
            0 ≤ batch_prec1 model criterion topk_row b'
            ∧ batch_prec1 model criterion topk_row b' ≤ batch_prec5 model criterion topk_row b'
            ∧ batch_prec5 model criterion topk_row b' ≤ Qn 100) as Hone.
  { intros b' Hb'. destruct (batch_prec_ordered b') as [H0 Hle]; [by apply Hbs|].
    split; [done|]. split; [done|]. by apply batch_prec5_le_100, Hbs. }
  destruct distributed; simpl; [|by apply Hone].
  assert (0 < Qn (length bs)) as HW.
  { apply Qn_pos. destruct bs; [by apply elem_of_nil in Hb|simpl; lia]. }
  unfold reduce_tensor, all_reduce_sum.
  destruct (tensor_sum_between 0 (Qn 100) (batch_prec1 model criterion topk_row <$> bs))
    as [H1lo _].
  { apply Forall_fmap, Forall_forall. intros b' Hb'. destruct (Hone b' Hb') as (? & ? & ?).
    split; [done|]. by trans (batch_prec5 model criterion topk_row b'). }
  destruct (tensor_sum_between 0 (Qn 100) (batch_prec5 model criterion topk_row <$> bs))
    as [_ H5hi].
  { apply Forall_fmap, Forall_forall. intros b' Hb'. destruct (Hone b' Hb') as (? & ? & ?).
    split; [|done]. by trans (batch_prec1 model criterion topk_row b'). }
  rewrite !length_fmap in *.
  assert (tensor_sum (batch_prec1 model criterion topk_row <$> bs)
          ≤ tensor_sum (batch_prec5 model criterion topk_row <$> bs)) as Hle.
  { clear -Hone. induction bs as [|b' bs IH]; [done|].
    rewrite !fmap_cons.
    change (batch_prec1 model criterion topk_row b'
              + tensor_sum (batch_prec1 model criterion topk_row <$> bs)
            ≤ batch_prec5 model criterion topk_row b'
              + tensor_sum (batch_prec5 model criterion topk_row <$> bs)).
    apply Qcplus_le_compat.
    - apply Hone. left.
    - apply IH. intros b'' Hb''. apply Hone. by right. }
  assert (0 ≤ / Qn (length bs)) as Hinv by (by apply Qclt_le_weak, Qcinv_pos).
  split; [|split].
  - apply Qcmult_nonneg_nonneg; [|done]. by rewrite Qcmult_0_l in H1lo.
  - by apply Qcmult_le_mono_nonneg_r.
  - apply (Qcdiv_between 0 (Qn 100)); [done| |done].
    rewrite Qcmult_0_l. by trans (tensor_sum (batch_prec1 model criterion topk_row <$> bs)).
Qed.

Lemma fed_sum_ordered (distributed : bool) (steps : list (list (Batch Input)))
    (r world_size : nat) :
  (r < world_size)%nat →
  Forall (fun bs => length bs = world_size ∧ Forall (tensor_batch model) bs) steps →
  0 ≤ fed_sum distributed (batch_prec1 model criterion topk_row) steps r
  ∧ fed_sum distributed (batch_prec1 model criterion topk_row) steps r
    ≤ fed_sum distributed (batch_prec5 model criterion topk_row) steps r
  ∧ fed_sum distributed (batch_prec5 model criterion topk_row) steps r
    ≤ Qn 100 * Qn (delivered steps r).
Proof.
  intros Hr. induction 1 as [|bs steps [Hlen Hbs] _ (IH0 & IHle & IH100)].
  - unfold fed_sum, delivered, tensor_sum; simpl. by rewrite Qn_0, Qcmult_0_r.
  - destruct (lookup_lt_is_Some_2 bs r) as [b Hb]; [lia|].
    rewrite !(fed_sum_cons _ _ _ _ _ b Hb), (delivered_cons _ _ _ b Hb), Qn_add.
    destruct (fed_value_ordered distributed bs b Hbs) as (H0 & Hle & H100);
      [by eapply list_elem_of_lookup_2|].
    pose proof (Qn_nonneg (length (data b))) as Hn.
    split; [|split].
    + apply Qcplus_nonneg_nonneg; [by apply Qcmult_nonneg_nonneg|done].
    + apply Qcplus_le_compat; [by apply Qcmult_le_mono_nonneg_r|done].
    + rewrite Qcmult_plus_distr_r.
      apply Qcplus_le_compat; [by apply Qcmult_le_mono_nonneg_r|done].
Qed.

Lemma delivered_pos (steps : list (list (Batch Input))) (r world_size : nat) :
  (r < world_size)%nat → steps ≠ [] →
  Forall (fun bs => length bs = world_size ∧ Forall (wf_batch model) bs) steps →
  (0 < delivered steps r)%nat.
Proof.
  intros Hr Hne Hsteps. destruct Hsteps as [|bs steps [Hlen Hbs] _]; [done|].
  destruct (lookup_lt_is_Some_2 bs r) as [b Hb]; [lia|].
  rewrite (delivered_cons _ _ _ b Hb).
  rewrite Forall_forall in Hbs.
  destruct (Hbs b) as (Hd & _); [by eapply list_elem_of_lookup_2|].
  destruct (data b); simpl; [done|lia].
Qed.

Lemma tensor_wf_steps (steps : list (list (Batch Input))) (world_size : nat) :
  Forall (fun bs => length bs = world_size ∧ Forall (tensor_batch model) bs) steps →
  Forall (fun bs => length bs = world_size ∧ Forall (wf_batch model) bs) steps.
Proof.
  intros H. eapply Forall_impl; [exact H|]. intros bs [Hlen Hbs]. split; [done|].
  eapply Forall_impl; [exact Hbs|]. by intros b (? & _).
Qed.

Lemma fresh_meters_nonneg (world_size : nat) :
  Forall meters_nonneg
    (replicate world_size {| losses := AverageMeter_init; top1 := AverageMeter_init;
                             top5 := AverageMeter_init |}).
Proof. apply Forall_replicate. unfold meters_nonneg. by simpl. Qed.

(** X11.  In both modes and for every world size, an evaluation over
    batches of at least five classes with as many labels as inputs returns,
    on every rank, [top1.avg] and [top5.avg] with
    [0 <= top1.avg <= top5.avg <= 100]. *)
Theorem validate_result_ordered (distributed : bool) (world_size : nat)
    (steps : list (list (Batch Input))) :
  Forall (fun bs => length bs = world_size ∧ Forall (tensor_batch model) bs) steps →
  ∃ res, validate model criterion topk_row distributed world_size (delivering steps) = Ok res
         ∧ length res = world_size
         ∧ Forall (fun p => 0 ≤ p.1 ∧ p.1 ≤ p.2 ∧ p.2 ≤ Qn 100) res.
Proof.
  intros Hsteps. pose proof (tensor_wf_steps steps world_size Hsteps) as Hwf.
  destruct (decide (steps = [])) as [->|Hne].
  { eexists. split; [reflexivity|]. rewrite length_fmap, length_replicate.
    split; [done|]. apply Forall_fmap, Forall_replicate. simpl.
    split; [done|]. split; [done|]. apply Qn_nonneg. }
  unfold validate, validate_meters.
  destruct (validate_loop_sums distributed steps
              (replicate world_size {| losses := AverageMeter_init; top1 := AverageMeter_init;
                                       top5 := AverageMeter_init |}))
    as (ms & -> & Hlen & Htr).
  { by rewrite length_replicate. }
  { apply fresh_meters_nonneg. }
  rewrite length_replicate in Hlen. simpl. eexists. split; [done|].
  split; [by rewrite length_fmap|].
  apply Forall_fmap, Forall_forall. intros m Hm. simpl.
  apply list_elem_of_lookup in Hm as [r Hr].
  assert (r < world_size)%nat as Hrw by (rewrite <- Hlen; by eapply lookup_lt_Some).
  destruct (Htr r _ m (proj2 (lookup_replicate _ _ _ _) (conj eq_refl Hrw)) Hr)
    as [(Hs1 & Hc1 & Ha1) (Hs5 & Hc5 & Ha5)].
  simpl in Hs1, Hc1, Hs5, Hc5. rewrite Qcplus_0_l in Hs1, Hc1, Hs5, Hc5.
  destruct (fed_sum_ordered distributed steps r world_size Hrw Hsteps) as (H0 & Hle & H100).
  assert (0 < Qn (delivered steps r)) as Hpos.
  { apply Qn_pos. by apply (delivered_pos _ r world_size). }
  rewrite Ha1, Ha5, Hs1, Hc1, Hs5, Hc5 by done.
  assert (0 ≤ / Qn (delivered steps r)) as Hinv by (by apply Qclt_le_weak, Qcinv_pos).
  split; [|split].
  - by apply Qcmult_nonneg_nonneg.
  - by apply Qcmult_le_mono_nonneg_r.
  - apply (Qcdiv_between 0 (Qn 100)); [done| |done].
    rewrite Qcmult_0_l.
    by trans (fed_sum distributed (batch_prec1 model criterion topk_row) steps r).
Qed.

Lemma total_hits_app (k : nat) (bs bs' : list (Batch Input)) :
  total_hits model topk_row k (bs ++ bs')
  = (total_hits model topk_row k bs + total_hits model topk_row k bs')%nat.
Proof. unfold total_hits. by rewrite fmap_app, sum_list_with_app. Qed.

Lemma total_samples_app (bs bs' : list (Batch Input)) :
  total_samples (bs ++ bs') = (total_samples bs + total_samples bs')%nat.
Proof. unfold total_samples. by rewrite fmap_app, sum_list_with_app. Qed.

Lemma total_samples_equal (bs : list (Batch Input)) (n : nat) :
  Forall (fun b => length (data b) = n) bs → total_samples bs = (length bs * n)%nat.
Proof.
  intros H. unfold total_samples. by apply sum_list_fmap_same.
Qed.

(** Scores that are [100 * hits / batch size], summed over ranks that hold
    batches of one size [n]. *)
Lemma scores_equal_size (sel : Batch Input → Qc) (k n : nat) (bs : list (Batch Input)) :
  n ≠ 0%nat →
  Forall (fun b => length (data b) = n
                   ∧ sel b = Qn 100 * (Qn (batch_hits model topk_row k b) / Qn n)) bs →
  tensor_sum (sel <$> bs) * Qn n = Qn 100 * Qn (total_hits model topk_row k bs).
Proof.
  intros Hn%Qn_neq_0. unfold total_hits.
  induction 1 as [|b bs [Hb Hsel] _ IH].
  - unfold tensor_sum; simpl. by rewrite Qn_0, Qcmult_0_l, Qcmult_0_r.
  - rewrite !fmap_cons.
    change (tensor_sum (sel b :: (sel <$> bs))) with (sel b + tensor_sum (sel <$> bs)).
    change (sum_list (batch_hits model topk_row k b :: (batch_hits model topk_row k <$> bs)))
      with (batch_hits model topk_row k b + sum_list (batch_hits model topk_row k <$> bs))%nat.
    rewrite Qn_add, Qcmult_plus_distr_l, IH, Hsel. by field.
Qed.

Lemma fed_value_equal_size (distributed : bool) (sel : Batch Input → Qc) (k n : nat)
    (bs : list (Batch Input)) (b : Batch Input) :
  distributed = true ∨ length bs = 1%nat →
  n ≠ 0%nat → b ∈ bs →
  Forall (fun b => length (data b) = n
                   ∧ sel b = Qn 100 * (Qn (batch_hits model topk_row k b) / Qn n)) bs →
  fed_value distributed sel bs b * Qn n * Qn (length bs)
  = Qn 100 * Qn (total_hits model topk_row k bs).
Proof.
  intros Hmode Hn Hb Hbs.
  assert (Qn (length bs) ≠ 0) as HW.
  { apply Qn_neq_0. destruct bs; [by apply elem_of_nil in Hb|done]. }
  rewrite <- (scores_equal_size sel k n bs Hn Hbs).
  destruct distributed; simpl.
  - unfold reduce_tensor, all_reduce_sum. by field.
  - destruct Hmode as [?|H1]; [done|].
    destruct bs as [|b' [|b'' bs]]; try done.
    apply list_elem_of_singleton in Hb as ->.
    unfold tensor_sum; simpl. rewrite Qn_1. ring.
Qed.

(** The common part of the two theorems below: with batches of one size per
    iteration, every rank ends with the dataset-wide figures. *)
Lemma validate_equal_batches (distributed : bool) (world_size : nat)
    (steps : list (list (Batch Input))) :
  distributed = true ∨ world_size = 1%nat →
  steps ≠ [] →
  Forall (fun bs => length bs = world_size ∧ Forall (tensor_batch model) bs
                    ∧ ∃ n, Forall (fun b => length (data b) = n) bs) steps →
  validate model criterion topk_row distributed world_size (delivering steps)
  = Ok (replicate world_size
          (Qn 100 * (Qn (total_hits model topk_row 1 (concat steps))
                     / Qn (total_samples (concat steps))),
           Qn 100 * (Qn (total_hits model topk_row 5 (concat steps))
                     / Qn (total_samples (concat steps))))).
Proof.
  intros Hmode Hne Hsteps.
  assert (Forall (fun bs => length bs = world_size ∧ Forall (wf_batch model) bs) steps)
    as Hwf.
  { eapply Forall_impl; [exact Hsteps|]. intros bs (Hlen & Hbs & _). split; [done|].
    eapply Forall_impl; [exact Hbs|]. by intros b (? & _). }
  unfold validate, validate_meters.
  destruct (validate_loop_sums distributed steps
              (replicate world_size {| losses := AverageMeter_init; top1 := AverageMeter_init;
                                       top5 := AverageMeter_init |}))
    as (ms & -> & Hlen & Htr).
  { by rewrite length_replicate. }
  { apply fresh_meters_nonneg. }
  rewrite length_replicate in Hlen. simpl. f_equal. symmetry.
  apply replicate_as_Forall. split; [by rewrite length_fmap|].
  apply Forall_fmap, Forall_forall. intros m Hm. simpl.
  apply list_elem_of_lookup in Hm as [r Hr].
  assert (r < world_size)%nat as Hrw by (rewrite <- Hlen; by eapply lookup_lt_Some).
  destruct (Htr r _ m (proj2 (lookup_replicate _ _ _ _) (conj eq_refl Hrw)) Hr)
    as [(Hs1 & Hc1 & Ha1) (Hs5 & Hc5 & Ha5)].
  simpl in Hs1, Hc1, Hs5, Hc5. rewrite Qcplus_0_l in Hs1, Hc1, Hs5, Hc5.
  rewrite Ha1, Ha5, Hs1, Hc1, Hs5, Hc5 by done.
  assert (0 < delivered steps r)%nat as Hpos by (by apply (delivered_pos _ r world_size)).
  assert (Qn world_size ≠ 0) as HW by (apply Qn_neq_0; lia).
  assert (Qn (delivered steps r) ≠ 0) as HD by (apply Qn_neq_0; lia).
  assert (fed_sum distributed (batch_prec1 model criterion topk_row) steps r * Qn world_size
          = Qn 100 * Qn (total_hits model topk_row 1 (concat steps))
          ∧ fed_sum distributed (batch_prec5 model criterion topk_row) steps r * Qn world_size
            = Qn 100 * Qn (total_hits model topk_row 5 (concat steps))
          ∧ Qn (delivered steps r) * Qn world_size = Qn (total_samples (concat steps)))
    as (H1 & H5 & HN).
  { clear -Hsteps Hmode Hrw topk_row_ok.
    induction Hsteps as [|bs steps (Hlen & Hbs & n & Hn) _ IH].
    - unfold fed_sum, delivered, total_hits, total_samples, tensor_sum; simpl.
      by rewrite Qn_0, !Qcmult_0_l, Qcmult_0_r.
    - destruct IH as (IH1 & IH5 & IHN).
      destruct (lookup_lt_is_Some_2 bs r) as [b Hb]; [lia|].
      pose proof (list_elem_of_lookup_2 _ _ _ Hb) as Hin.
      rewrite Forall_forall in Hn. rewrite Forall_forall in Hbs.
      pose proof (Hn b Hin) as Hbn.
      assert (n ≠ 0%nat) as Hn0.
      { destruct (Hbs b Hin) as ((Hd & _) & _). rewrite <- Hbn. by destruct (data b). }
      assert (distributed = true ∨ length bs = 1%nat) as Hmode'.
      { destruct Hmode; [by left|right; lia]. }
      assert (∀ b', b' ∈ bs →
                length (data b') = n
                ∧ batch_prec1 model criterion topk_row b'
                  = Qn 100 * (Qn (batch_hits model topk_row 1 b') / Qn n)
                ∧ batch_prec5 model criterion topk_row b'
                  = Qn 100 * (Qn (batch_hits model topk_row 5 b') / Qn n)) as Hsel.
      { intros b' Hb'. destruct (batch_prec_as_hits b' (Hbs b' Hb')) as [E1 E5].
        rewrite (Hn b' Hb') in E1, E5. by rewrite (Hn b' Hb'). }
      pose proof (fed_value_equal_size distributed (batch_prec1 model criterion topk_row)
                    1 n bs b Hmode' Hn0 Hin) as E1.
      pose proof (fed_value_equal_size distributed (batch_prec5 model criterion topk_row)
                    5 n bs b Hmode' Hn0 Hin) as E5.
      rewrite Hlen in E1, E5.
      rewrite !(fed_sum_cons _ _ _ _ _ b Hb), (delivered_cons _ _ _ b Hb), Hbn.
      change (concat (bs :: steps)) with (bs ++ concat steps).
      rewrite !total_hits_app, total_samples_app, !Qn_add, !Qcmult_plus_distr_l.
      rewrite IH1, IH5, IHN, !Qcmult_plus_distr_r.
      rewrite E1, E5.
      2:{ apply Forall_forall. intros b' Hb'. destruct (Hsel b' Hb') as (? & ? & ?). done. }
      2:{ apply Forall_forall. intros b' Hb'. destruct (Hsel b' Hb') as (? & ? & ?). done. }
      split; [done|]. split; [done|]. f_equal.
      rewrite (total_samples_equal bs n), Hlen.
      + unfold Qn. rewrite Nat2Z.inj_mul, Z2Qc_inj_mul. ring.
      + apply Forall_forall. intros b' Hb'. by apply Hn. }
  rewrite <- HN. f_equal.
  - trans ((Qn 100 * Qn (total_hits model topk_row 1 (concat steps)))
           / (Qn (delivered steps r) * Qn world_size)); [by field|].
    rewrite <- H1. by field.
  - trans ((Qn 100 * Qn (total_hits model topk_row 5 (concat steps)))
           / (Qn (delivered steps r) * Qn world_size)); [by field|].
    rewrite <- H5. by field.
Qed.

(** X12.  In a single process the two numbers [validate] returns are the
    accuracies over the whole pass, however the samples are cut into
    batches: 100 times the number of samples whose label is the first
    prediction, respectively among the five predictions, over the number of
    samples. *)
Theorem validate_single_process_accuracy (batches : list (Batch Input)) :
  batches ≠ [] → Forall (tensor_batch model) batches →
  validate model criterion topk_row false 1 (delivering ((fun b => [b]) <$> batches))
  = Ok [(Qn 100 * (Qn (total_hits model topk_row 1 batches) / Qn (total_samples batches)),
         Qn 100 * (Qn (total_hits model topk_row 5 batches) / Qn (total_samples batches)))].
Proof.
  intros Hne Hb.
  assert (concat ((fun b => [b]) <$> batches) = batches) as Hflat.
  { clear. induction batches as [|b bs IH]; [done|]. rewrite fmap_cons. simpl. by rewrite IH. }
  rewrite (validate_equal_batches false 1 ((fun b => [b]) <$> batches)).
  - by rewrite Hflat.
  - by right.
  - by destruct batches.
  - apply Forall_fmap, Forall_forall. intros b Hin. simpl.
    rewrite Forall_forall in Hb.
    split; [done|]. split; [by repeat constructor; apply Hb|].
    exists (length (data b)). by repeat constructor.
Qed.

(** X13.  In distributed mode, when in each iteration all ranks hold
    batches of one size, every rank returns the accuracies over the samples
    of all ranks together: 100 times the number of samples whose label is the
    first prediction, respectively among the five predictions, over the
    number of samples of the whole pass. *)
Theorem validate_distributed_equal_batches (world_size : nat)
    (steps : list (list (Batch Input))) :
  steps ≠ [] →
  Forall (fun bs => length bs = world_size ∧ Forall (tensor_batch model) bs
                    ∧ ∃ n, Forall (fun b => length (data b) = n) bs) steps →
  validate model criterion topk_row true world_size (delivering steps)
  = Ok (replicate world_size
          (Qn 100 * (Qn (total_hits model topk_row 1 (concat steps))
                     / Qn (total_samples (concat steps))),
           Qn 100 * (Qn (total_hits model topk_row 5 (concat steps))
                     / Qn (total_samples (concat steps))))).
Proof. intros Hne Hsteps. apply validate_equal_batches; [by left|done..]. Qed.

End ValidateFacts.

Lemma tensor_batch_A : tensor_batch demo_model batch_A.
Proof.
  split; [exact wf_batch_A|]. split; [|reflexivity].
  unfold wf_tensor. simpl. by repeat constructor.
Qed.

Lemma tensor_batch_B : tensor_batch demo_model batch_B.
Proof.
  split; [exact wf_batch_B|]. split; [|reflexivity].
  unfold wf_tensor. simpl. by repeat constructor.
Qed.

Lemma validate_result_ordered_witness :
  ∃ res, validate demo_model demo_criterion topk_stable true 2
           (delivering [[batch_A; batch_B]]) = Ok res
         ∧ length res = 2%nat
         ∧ Forall (fun p => 0 ≤ p.1 ∧ p.1 ≤ p.2 ∧ p.2 ≤ Qn 100) res.
Proof.
  apply (validate_result_ordered demo_model demo_criterion topk_stable topk_stable_ok
           true 2 [[batch_A; batch_B]]).
  apply Forall_cons. split; [|apply Forall_nil_2]. split; [reflexivity|].
  apply Forall_cons. split; [exact tensor_batch_A|].
  apply Forall_cons. split; [exact tensor_batch_B|apply Forall_nil_2].
Defined.

Lemma validate_single_process_accuracy_witness :
  validate demo_model demo_criterion topk_stable false 1
    (delivering ((fun b => [b]) <$> [batch_A; batch_B]))
  = Ok [(Qn 100 * (Qn (total_hits demo_model topk_stable 1 [batch_A; batch_B])
                   / Qn (total_samples [batch_A; batch_B])),
         Qn 100 * (Qn (total_hits demo_model topk_stable 5 [batch_A; batch_B])
                   / Qn (total_samples [batch_A; batch_B])))].
Proof.
  apply (validate_single_process_accuracy demo_model demo_criterion topk_stable
           topk_stable_ok [batch_A; batch_B]).
  - discriminate.
  - apply Forall_cons. split; [exact tensor_batch_A|].
    apply Forall_cons. split; [exact tensor_batch_B|apply Forall_nil_2].
Defined.

Lemma validate_distributed_equal_batches_witness :
  validate demo_model demo_criterion topk_stable true 2
    (delivering [[batch_A; batch_A]; [batch_B; batch_B]])
  = Ok (replicate 2
          (Qn 100 * (Qn (total_hits demo_model topk_stable 1
                           [batch_A; batch_A; batch_B; batch_B])
                     / Qn (total_samples [batch_A; batch_A; batch_B; batch_B])),
           Qn 100 * (Qn (total_hits demo_model topk_stable 5
                           [batch_A; batch_A; batch_B; batch_B])
                     / Qn (total_samples [batch_A; batch_A; batch_B; batch_B])))).
Proof.
  apply (validate_distributed_equal_batches demo_model demo_criterion topk_stable
           topk_stable_ok 2 [[batch_A; batch_A]; [batch_B; batch_B]]).
  - discriminate.
  - apply Forall_cons. split.
    { split; [reflexivity|]. split.
      - apply Forall_cons. split; [exact tensor_batch_A|].
        apply Forall_cons. split; [exact tensor_batch_A|apply Forall_nil_2].
      - exists 2%nat. by repeat constructor. }
    apply Forall_cons. split; [|apply Forall_nil_2].
    split; [reflexivity|]. split.
    + apply Forall_cons. split; [exact tensor_batch_B|].
      apply Forall_cons. split; [exact tensor_batch_B|apply Forall_nil_2].
    + exists 8%nat. by repeat constructor.
Defined.

(** ** Resume: failures and repetition *)

Section ResumeEdges.

Context {StateDict : Type}.

(** X14.  A checkpoint that lacks a key makes [resume] raise [KeyError] for
    the first key missing in the order [epoch], [best_prec1], [state_dict],
    [optimizer], and what was assigned before stays: [args.start_epoch] and
    [best_prec1] may already be the checkpoint's when a later key fails. *)
Theorem resume_missing_key (fs : gmap string (Inode StateDict)) (path : string)
    (checkpoint : gmap string (PyVal StateDict)) (st : RunState StateDict) :
  path ≠ EmptyString →
  fs !! path = Some (RegularFile (Some checkpoint)) →
  (checkpoint !! "epoch" = None →
   main_resume fs path st = Raised st (KeyError "epoch"))
  ∧ (∀ epoch, checkpoint !! "epoch" = Some epoch → checkpoint !! "best_prec1" = None →
       main_resume fs path st
       = Raised {| start_epoch := epoch; best_prec1 := best_prec1 st;
                   model_state := model_state st; optimizer_state := optimizer_state st |}
                (KeyError "best_prec1"))
  ∧ (∀ epoch best, checkpoint !! "epoch" = Some epoch →
       checkpoint !! "best_prec1" = Some best → checkpoint !! "state_dict" = None →
       main_resume fs path st
       = Raised {| start_epoch := epoch; best_prec1 := best;
                   model_state := model_state st; optimizer_state := optimizer_state st |}
                (KeyError "state_dict"))
  ∧ (∀ epoch best sd, checkpoint !! "epoch" = Some epoch →
       checkpoint !! "best_prec1" = Some best →
       checkpoint !! "state_dict" = Some (VState sd) → checkpoint !! "optimizer" = None →
       main_resume fs path st
       = Raised {| start_epoch := epoch; best_prec1 := best;
                   model_state := sd; optimizer_state := optimizer_state st |}
                (KeyError "optimizer")).
Proof.
  intros Hpath Hfile. unfold main_resume. rewrite decide_False by done.
  unfold resume, isfile, torch_load, getitem. rewrite Hfile. simpl.
  split; [by intros ->|]. split; [by intros epoch -> ->|].
  split; [by intros epoch best -> -> ->|]. by intros epoch best sd -> -> -> ->.
Qed.

Lemma resume_cases (fs : gmap string (Inode StateDict)) (path : string)
    (st st' : RunState StateDict) :
  resume fs path st = Returned st' tt →
  (isfile _ fs path = false ∧ st' = st)
  ∨ ∃ checkpoint epoch best sd od,
      fs !! path = Some (RegularFile (Some checkpoint))
      ∧ checkpoint !! "epoch" = Some epoch ∧ checkpoint !! "best_prec1" = Some best
      ∧ checkpoint !! "state_dict" = Some (VState sd)
      ∧ checkpoint !! "optimizer" = Some (VState od)
      ∧ st' = {| start_epoch := epoch; best_prec1 := best;
                 model_state := sd; optimizer_state := od |}.
Proof.
  unfold resume, isfile, torch_load, getitem.
  destruct (fs !! path) as [[|[checkpoint|]]|] eqn:Hfile; simpl;
    try (intros [= <-]; by left); try done.
  destruct (checkpoint !! "epoch") as [epoch|] eqn:He; simpl; [|done].
  destruct (checkpoint !! "best_prec1") as [best|] eqn:Hb; simpl; [|done].
  destruct (checkpoint !! "state_dict") as [[| |sd|]|] eqn:Hs; simpl; try done.
  destruct (checkpoint !! "optimizer") as [[| |od|]|] eqn:Ho; simpl; try done.
  intros [= <-]. right. by exists checkpoint, epoch, best, sd, od.
Qed.

Lemma resume_loaded (fs : gmap string (Inode StateDict)) (path : string)
    (checkpoint : gmap string (PyVal StateDict)) epoch best sd od (st : RunState StateDict) :
  fs !! path = Some (RegularFile (Some checkpoint)) →
  checkpoint !! "epoch" = Some epoch → checkpoint !! "best_prec1" = Some best →
  checkpoint !! "state_dict" = Some (VState sd) →
  checkpoint !! "optimizer" = Some (VState od) →
  resume fs path st = Returned {| start_epoch := epoch; best_prec1 := best;
                                  model_state := sd; optimizer_state := od |} tt.
Proof.
  intros Hfile He Hb Hs Ho. unfold resume, isfile, torch_load, getitem.
  rewrite Hfile. simpl. rewrite He. simpl. rewrite Hb. simpl. rewrite Hs. simpl.
  rewrite Ho. simpl. done.
Qed.

(** X15.  Resuming is idempotent: if [resume] returns, resuming again from
    the state it left returns and changes nothing. *)
Theorem resume_twice (fs : gmap string (Inode StateDict)) (path : string)
    (st st' : RunState StateDict) :
  main_resume fs path st = Returned st' tt →
  main_resume fs path st' = Returned st' tt.
Proof.
  unfold main_resume. case_decide; [done|].
  intros [[Hno ->]|(ck & epoch & best & sd & od & Hfile & He & Hb & Hs & Ho & ->)]%resume_cases.
  - unfold resume. by rewrite Hno.
  - by apply (resume_loaded fs path ck).
Qed.

(** X16.  [if args.resume: resume()] returns exactly when no path was given,
    or the path is no regular file, or [torch.load] returns a dictionary that
    has [epoch] and [best_prec1] and holds, under [state_dict] and under
    [optimizer], a state dict that the strict [load_state_dict] it is passed
    to accepts ([VState]); in every other case it raises: a file that does
    not load, a missing key, a state dict that does not fit. *)
Theorem resume_returns_iff (fs : gmap string (Inode StateDict)) (path : string)
    (st : RunState StateDict) :
  (∃ st', main_resume fs path st = Returned st' tt)
  ↔ path = EmptyString
    ∨ isfile _ fs path = false
    ∨ ∃ checkpoint epoch best sd od,
        fs !! path = Some (RegularFile (Some checkpoint))
        ∧ checkpoint !! "epoch" = Some epoch ∧ checkpoint !! "best_prec1" = Some best
        ∧ checkpoint !! "state_dict" = Some (VState sd)
        ∧ checkpoint !! "optimizer" = Some (VState od).
Proof.
  unfold main_resume. split.
  - intros [st' Hrun]. case_decide; [by left|]. right.
    apply resume_cases in Hrun
      as [[Hno _]|(ck & epoch & best & sd & od & Hfile & He & Hb & Hs & Ho & _)].
    + by left.
    + right. by exists ck, epoch, best, sd, od.
  - intros [->|[Hno|(ck & epoch & best & sd & od & Hfile & He & Hb & Hs & Ho)]].
    + by exists st.
    + exists st. case_decide; [done|]. unfold resume. by rewrite Hno.
    + case_decide; [by exists st|]. eexists. by apply (resume_loaded fs path ck).
Qed.

End ResumeEdges.

Lemma resume_missing_key_witness :
  main_resume (<["part.pth" := RegularFile (Some (<["epoch" := VInt 3]> ∅))]> ∅)
              "part.pth" demo_state
  = Raised {| start_epoch := VInt 3; best_prec1 := best_prec1 demo_state;
              model_state := model_state demo_state;
              optimizer_state := optimizer_state demo_state |}
           (KeyError "best_prec1").
Proof.
  destruct (resume_missing_key
              (<["part.pth" := RegularFile (Some (<["epoch" := VInt 3]> ∅))]> ∅)
              "part.pth" (<["epoch" := VInt 3]> ∅) demo_state) as (_ & Hbest & _).
  - discriminate.
  - reflexivity.
  - apply Hbest; reflexivity.
Defined.

(** A checkpoint whose [state_dict] does not fit the model: [load_state_dict]
    raises, with [args.start_epoch] and [best_prec1] already overwritten. *)
Example resume_misfit_try :
  main_resume
    (<["odd.pth" := RegularFile (Some (<["epoch" := VInt 3]>
                                       (<["best_prec1" := VFloat (Qn 70)]>
                                        (<["state_dict" := VOther]> ∅))))]> ∅)
    "odd.pth" demo_state
  = Raised {| start_epoch := VInt 3; best_prec1 := VFloat (Qn 70);
              model_state := 1%nat; optimizer_state := 2%nat |} LoadStateDictError.
Proof. reflexivity. Qed.

Lemma resume_twice_witness :
  main_resume demo_fs "ckpt.pth"
    {| start_epoch := VInt 7; best_prec1 := VFloat (Qn 71);
       model_state := 11%nat; optimizer_state := 12%nat |}
  = Returned {| start_epoch := VInt 7; best_prec1 := VFloat (Qn 71);
                model_state := 11%nat; optimizer_state := 12%nat |} tt.
Proof.
  apply (resume_twice demo_fs "ckpt.pth" demo_state).
  reflexivity.
Defined.

(** ** [main]

    A run of [main] is followed with Hoare triples; [main_body_spec] walks
    the function once, with [main_inv] as the invariant, and the theorems
    after it read off what the invariant and the postconditions say. *)

Section MainFacts.

Context {StateDict : Type}.
Variable w : World StateDict.

Implicit Types (s : MainState StateDict) (c : Call StateDict).

Lemma hoare_ret {A : Type} (P : MainState StateDict → Prop) (a : A) Q E :
  (∀ s, P s → Q a s) → hoare P (ret a) Q E.
Proof. intros H s Hs. by apply H. Qed.

Lemma hoare_raise {A : Type} (P : MainState StateDict → Prop) (e : MainExn)
    (Q : A → MainState StateDict → Prop) E :
  (∀ s, P s → E e s) → hoare P (raise e) Q E.
Proof. intros H s Hs. by apply H. Qed.

Lemma hoare_bind {A B : Type} (P : MainState StateDict → Prop)
    (m : Run StateDict A) (k : A → Run StateDict B) Q1 Q E :
  hoare P m Q1 E → (∀ a, hoare (Q1 a) (k a) Q E) → hoare P (bind m k) Q E.
Proof.
  intros Hm Hk s Hs. unfold bind. specialize (Hm s Hs).
  destruct (m s) as [a s'|e s']; [by apply Hk|done].
Qed.

Lemma hoare_call (P : MainState StateDict → Prop) c Q E :
  (∀ s, P s → Q tt (log c s)) →
  (∀ s code, P s → raises w c = Some code → E (Foreign code) (log c s)) →
  hoare P (call w c) Q E.
Proof.
  intros HQ HE s Hs. unfold call.
  destruct (raises w c) as [code|] eqn:Hc; [by apply HE|by apply HQ].
Qed.

Lemma hoare_when (P : MainState StateDict → Prop) (b : bool) m Q E :
  (b = true → hoare P m Q E) → (b = false → ∀ s, P s → Q tt s) →
  hoare P (when b m) Q E.
Proof. destruct b; simpl; intros Ht Hf; [by apply Ht|]. apply hoare_ret. by apply Hf. Qed.

Lemma hoare_lift {A : Type} (P : MainState StateDict → Prop) (r : Result A) Q E :
  (∀ a s, r = Ok a → P s → Q a s) → (∀ e s, r = Err e → P s → E (Builtin e) s) →
  hoare P (lift r) Q E.
Proof. destruct r as [a|e]; intros HQ HE s Hs; simpl; [by apply HQ|by apply HE]. Qed.

Lemma hoare_pre {A : Type} (P P' : MainState StateDict → Prop) (m : Run StateDict A) Q E :
  hoare P' m Q E → (∀ s, P s → P' s) → hoare P m Q E.
Proof. intros Hm HP s Hs. by apply Hm, HP. Qed.

Lemma hoare_assoc {A B C : Type} (P : MainState StateDict → Prop) (m : Run StateDict A)
    (k1 : A → Run StateDict B) (k2 : B → Run StateDict C) Q E :
  hoare P (bind (bind m k1) k2) Q E → hoare P (bind m (fun a => bind (k1 a) k2)) Q E.
Proof. intros H s Hs. specialize (H s Hs). unfold bind in *. by destruct (m s). Qed.

Lemma hoare_get_disk {A : Type} (P : MainState StateDict → Prop)
    (k : gmap string (Inode StateDict) → Run StateDict A) Q E :
  (∀ d, (∃ s, P s ∧ disk s = d) → hoare P (k d) Q E) → hoare P (bind get_disk k) Q E.
Proof. intros H s Hs. unfold bind, get_disk. apply (H (disk s)); by eauto. Qed.

Lemma hoare_bind_val {A B : Type} (P P' : MainState StateDict → Prop)
    (m : Run StateDict A) (k : A → Run StateDict B) (v : A) Q E :
  hoare P m (fun a s => P' s ∧ a = v) E → hoare P' (k v) Q E → hoare P (bind m k) Q E.
Proof.
  intros Hm Hk. eapply hoare_bind; [exact Hm|].
  intros a s [Hs ->]. by apply Hk.
Qed.

Lemma hoare_pure {A : Type} (P : MainState StateDict → Prop) (Φ : Prop)
    (m : Run StateDict A) Q E :
  (Φ → hoare P m Q E) → hoare (fun s => P s ∧ Φ) m Q E.
Proof. intros H s [Hs HΦ]. by apply H. Qed.

Lemma main_resume_raised (fs : gmap string (Inode StateDict)) (path : string)
    (st st' : RunState StateDict) (e : Exn) :
  main_resume fs path st = Raised st' e → path ≠ EmptyString.
Proof. unfold main_resume. by case_decide. Qed.

Variable args : Args.
Variable fs : gmap string (Inode StateDict).

Let inv := fun s => main_inv w args fs s ∧ not_validated s.
Let exc := fun e s => main_inv w args fs s ∧ validate_last s ∧ abort_cause w args fs e s.

Lemma grown_lookup (d : gmap string (Inode StateDict)) (path : string) :
  grown args fs d → d !! path = None → fs !! path = None.
Proof. intros Hd Hnone. destruct (Hd path) as [<-|(_ & Hdir & _)]; [done|congruence]. Qed.

Lemma grown_isfile (d : gmap string (Inode StateDict)) (path : string) :
  grown args fs d → isfile _ d path = isfile _ fs path.
Proof.
  intros Hd. unfold isfile. destruct (Hd path) as [->|(-> & -> & _)]; done.
Qed.

Lemma grown_main_resume (d : gmap string (Inode StateDict)) (path : string)
    (st : RunState StateDict) :
  grown args fs d → main_resume d path st = main_resume fs path st.
Proof.
  intros Hd. unfold main_resume, resume, isfile, torch_load.
  destruct (Hd path) as [->|(-> & -> & _)]; done.
Qed.

Lemma grown_insert (d : gmap string (Inode StateDict)) (path : string) :
  grown args fs d → d !! path = None →
  path = "result" ∨ path = fdir_of (effective args) →
  grown args fs (<[path := Directory]> d).
Proof.
  intros Hd Hnone Hpath p. destruct (decide (p = path)) as [->|Hne].
  - right. rewrite lookup_insert_eq. split; [by eapply grown_lookup|done].
  - rewrite lookup_insert_ne by done. apply Hd.
Qed.

Lemma grown_torch_load (d : gmap string (Inode StateDict)) (path : string)
    (checkpoint : gmap string (PyVal StateDict)) :
  grown args fs d → torch_load _ d path = Ok checkpoint →
  fs !! path = Some (RegularFile (Some checkpoint)).
Proof.
  intros Hd. unfold torch_load.
  destruct (Hd path) as [->|(_ & -> & _)]; [|done].
  destruct (fs !! path) as [[|[ck|]]|]; by intros [= ->].
Qed.

Lemma quiet_validate_last s c : not_validated s → validate_last (log c s).
Proof.
  intros Hq i model Hi. simpl in *. rewrite length_app. simpl.
  apply lookup_app_Some in Hi as [Hi|[Hlen Hi]].
  - unfold not_validated in Hq. rewrite Forall_forall in Hq.
    destruct (Hq _ (list_elem_of_lookup_2 _ _ _ Hi) model). done.
  - apply lookup_lt_Some in Hi as Hlt. simpl in Hlt. lia.
Qed.

Lemma abort_here (e : MainExn) s : inv s → abort_cause w args fs e s → exc e s.
Proof.
  intros [Hs Hq] He. split; [done|]. split; [|done].
  intros i model Hi. unfold not_validated in Hq. rewrite Forall_forall in Hq.
  destruct (Hq _ (list_elem_of_lookup_2 _ _ _ Hi) model). done.
Qed.

Lemma log_keeps c s : call_site w args fs c → main_inv w args fs s → main_inv w args fs (log c s).
Proof.
  intros Hc [Ht Hd]. split; [|done]. simpl. apply Forall_app. split; [done|by constructor].
Qed.

Lemma call_keeps c :
  call_site w args fs c → (∀ model, c ≠ Validate model) →
  hoare inv (call w c) (fun _ => inv) exc.
Proof.
  intros Hc Hnv. apply hoare_call.
  - intros s [Hs Hq]. split; [by apply log_keeps|].
    unfold not_validated. simpl. apply Forall_app. split; [done|by constructor].
  - intros s code [Hs Hq] Hraise. split; [by apply log_keeps|].
    split; [by apply quiet_validate_last|]. simpl. by exists (calls s), c.
Qed.

Lemma makedirs_keeps (path : string) :
  path = "result" ∨ path = fdir_of (effective args) →
  hoare inv (bind (path_exists path) (fun there => when (negb there) (os_makedirs w path)))
        (fun _ => inv) exc.
Proof.
  intros Hpath s [[Ht Hd] Hq]. unfold bind, path_exists.
  case_bool_decide as Hthere; simpl; [done|].
  assert (disk s !! path = None) as Hnone.
  { destruct (disk s !! path) eqn:Hl; [|done]. destruct Hthere. by eexists. }
  assert (call_site w args fs (Makedirs path)) as Hsite.
  { simpl. split; [by eapply grown_lookup|done]. }
  unfold os_makedirs, bind, call.
  destruct (raises w (Makedirs path)) as [code|] eqn:Hraise; simpl.
  - split; [by apply log_keeps|]. split; [by apply quiet_validate_last|].
    by exists (calls s), (Makedirs path).
  - split.
    + split; simpl; [|by apply grown_insert].
      apply Forall_app. split; [done|by constructor].
    + unfold not_validated. simpl. apply Forall_app. split; [done|by constructor].
Qed.

Ltac call_step :=
  eapply hoare_bind with (Q1 := fun _ => inv);
  [apply call_keeps; [|done]|intros []].

Ltac raise_step :=
  apply hoare_raise; intros ? ?; apply abort_here; [done|].

Lemma main_body_spec :
  hoare (fun s => calls s = [] ∧ disk s = fs) (main_body w args)
    (fun _ s => main_inv w args fs s ∧ validate_last s
                ∧ arg_arch (effective args) ≠ "inception_v3"
                ∧ (arg_evaluate (effective args) = true →
                   ∃ before model, calls s = before ++ [Validate model]))
    exc.
Proof.
  unfold main_body.
  eapply (hoare_bind_val _ (fun s => calls s = [] ∧ disk s = fs) _ _ (effective args)).
  { unfold effective. destruct (arg_test args).
    - intros s Hs. simpl. done.
    - apply hoare_ret. done. }
  assert (∀ s, calls s = [] ∧ disk s = fs → inv s) as Hstart.
  { intros s [Hc Hd]. unfold inv, main_inv, not_validated. rewrite Hc, Hd.
    split; [split|]; [constructor| |constructor]. intros path. by left. }
  destruct (arg_data (effective args)) as [|dir more] eqn:Hdata.
  { apply hoare_raise. intros s Hs. apply abort_here; [by apply Hstart|].
    simpl. split; [done|]. unfold effective in Hdata.
    destruct (arg_test args); [discriminate|]. by destruct Hs. }
  apply (hoare_pre _ inv); [|exact Hstart].
  set (a := effective args) in *.
  (* args.distributed *)
  eapply (hoare_bind_val _ inv _ _ (distributed_of w)).
  { unfold distributed_of. destruct (environ w !! "WORLD_SIZE") as [size|] eqn:Henv.
    - destruct (py_int w size) as [n|] eqn:Hint.
      + apply hoare_ret. done.
      + by raise_step.
    - apply hoare_ret. done. }
  (* deterministic *)
  eapply hoare_bind with (Q1 := fun _ => inv).
  { apply hoare_when; [intros Hdet|done].
    call_step; [done|]. by apply call_keeps. }
  intros [].
  (* the process group *)
  eapply (hoare_bind_val _ inv _ _
            (if distributed_of w then arg_local_rank a else 0%Z, world_size_of w)).
  { unfold world_size_of. destruct (distributed_of w) eqn:Hdist.
    - call_step; [done|]. call_step; [done|]. call_step; [done|].
      apply hoare_ret. done.
    - apply hoare_ret. done. }
  simpl.
  destruct (cudnn_enabled w) eqn:Hcudnn; simpl; [|by raise_step].
  (* model and optimizer *)
  call_step; [done|]. call_step; [done|]. call_step; [done|].
  eapply hoare_bind with (Q1 := fun _ => inv).
  { apply hoare_when; [intros Hdist|done]. apply call_keeps; [|done]. simpl. by rewrite Hdist. }
  intros [].
  (* the result directories *)
  apply (hoare_assoc _ (path_exists "result")
           (fun there => when (negb there) (os_makedirs w "result"))).
  eapply hoare_bind with (Q1 := fun _ => inv); [apply makedirs_keeps; by left|intros []].
  apply (hoare_assoc _ (path_exists (fdir_of a))
           (fun there => when (negb there) (os_makedirs w (fdir_of a)))).
  eapply hoare_bind with (Q1 := fun _ => inv); [apply makedirs_keeps; by right|intros []].
  (* --init *)
  eapply hoare_bind with (Q1 := fun model s => inv s ∧ init_model w args fs model).
  { unfold init_model. cbv zeta. fold a. case_bool_decide as Hinit.
    { apply hoare_ret. intros s Hs. by case_decide. }
    case_decide; [done|].
    apply hoare_get_disk. intros fs0 (s0 & [[_ Hgrown] _] & <-).
    rewrite (grown_isfile _ _ Hgrown).
    destruct (isfile _ fs (arg_init a)) eqn:Hfile; [|by raise_step].
    eapply hoare_bind
      with (Q1 := fun checkpoint s =>
                    inv s ∧ fs !! arg_init a = Some (RegularFile (Some checkpoint))).
    { apply hoare_lift.
      - intros checkpoint s Hload Hs. split; [done|]. by eapply grown_torch_load.
      - intros e s Hr Hs. apply abort_here; [done|]. revert Hr. unfold torch_load.
        destruct (disk s0 !! arg_init a) as [[|[]]|]; intros [= <-]; simpl; by left. }
    intros checkpoint. apply hoare_pure. intros Hcheckpoint.
    eapply hoare_bind
      with (Q1 := fun sd s => inv s ∧ checkpoint !! "state_dict" = Some (VState sd)).
    { apply hoare_lift.
      - intros sd s Hsd Hs. split; [done|]. revert Hsd.
        unfold rbind, getitem, as_state_dict.
        destruct (checkpoint !! "state_dict") as [[]|]; simpl; by intros [= ->].
      - intros e s Hr Hs. apply abort_here; [done|]. revert Hr.
        unfold rbind, getitem, as_state_dict.
        destruct (checkpoint !! "state_dict") as [[]|]; simpl; intros [= <-]; simpl; by left. }
    intros sd. apply hoare_pure. intros Hsd.
    call_step; [done|]. apply hoare_ret. intros s Hs. split; [done|]. by exists checkpoint. }
  intros model. apply hoare_pure. intros Hmodel.
  call_step; [done|].
  (* --resume *)
  eapply hoare_bind
    with (Q1 := fun resumed s =>
                  inv s ∧ ∃ epoch best st',
                      main_resume fs (arg_resume a)
                        {| start_epoch := epoch; best_prec1 := best;
                           model_state := model; optimizer_state := sgd_state w |}
                      = Returned st' tt
                      ∧ resumed.1 = model_state st').
  { intros s Hs. unfold run_resume.
    rewrite (grown_main_resume (disk s)) by apply Hs.
    destruct (main_resume fs (arg_resume a) _) as [st' []|st' e] eqn:Hrun.
    - split; [exact Hs|]. by eexists _, _, st'.
    - apply abort_here; [exact Hs|].
      apply main_resume_raised in Hrun. simpl. by right. }
  intros resumed. apply hoare_pure. intros (epoch & best & st' & Hrun & Hresumed).
  (* valdir *)
  assert (match more with [] => path_join dir "val" | dir' :: _ => dir' end = valdir_of a)
    as Hvaldir.
  { unfold valdir_of. fold a in Hdata. rewrite Hdata. by destruct more. }
  cbv zeta. rewrite Hvaldir.
  case_bool_decide as Harch; [by raise_step|].
  call_step; [done|]. call_step; [done|]. call_step; [done|].
  eapply hoare_bind with (Q1 := fun _ => inv).
  { apply hoare_when; [intros Hunsigned|done]. by apply call_keeps. }
  intros [].
  apply hoare_when.
  - intros Hev.
    assert (call_site w args fs (Validate resumed.1)) as Hsite.
    { simpl. split; [done|]. split; [done|]. by exists model, epoch, best, st'. }
    apply hoare_call.
    + intros s [Hs Hq]. split; [by apply log_keeps|].
      split; [by apply quiet_validate_last|]. split; [done|]. intros _. by eexists _, _.
    + intros s code [Hs Hq] Hraise. split; [by apply log_keeps|].
      split; [by apply quiet_validate_last|]. simpl. by eexists _, _.
  - intros Hev s [Hs Hq]. split; [done|]. split.
    { intros i m Hi. unfold not_validated in Hq. rewrite Forall_forall in Hq.
      destruct (Hq _ (list_elem_of_lookup_2 _ _ _ Hi) m). done. }
    split; [done|]. intros Hev'. congruence.
Qed.

Lemma main_spec :
  match main w args fs with
  | Finished _ s =>
      main_inv w args fs s ∧ validate_last s
      ∧ arg_arch (effective args) ≠ "inception_v3"
      ∧ (arg_evaluate (effective args) = true →
         ∃ before model, calls s = before ++ [Validate model])
  | Aborted e s => main_inv w args fs s ∧ validate_last s ∧ abort_cause w args fs e s
  end.
Proof. apply main_body_spec. done. Qed.

Lemma main_calls : Forall (call_site w args fs) (calls (ended_state (main w args fs))).
Proof. pose proof main_spec as H. destruct (main w args fs); simpl; apply H. Qed.

Lemma main_disk : grown args fs (disk (ended_state (main w args fs))).
Proof. pose proof main_spec as H. destruct (main w args fs); simpl; apply H. Qed.

(** X17.  Without [-e] nothing is evaluated: whatever the environment, the
    file system and the outcome of the external calls, a run of [main] whose
    [args.evaluate] is false never calls [validate] (it builds the model, the
    optimizer and the loader and returns). *)
Theorem main_validates_only_on_request :
  arg_evaluate args = false →
  ∀ model, Validate model ∉ calls (ended_state (main w args fs)).
Proof.
  intros Hev model Hin. pose proof main_calls as Hcalls.
  rewrite Forall_forall in Hcalls. destruct (Hcalls _ Hin) as (_ & Hev' & _).
  unfold effective in Hev'. destruct (arg_test args); simpl in Hev'; congruence.
Qed.

(** X18.  Outside test mode, [-a inception_v3] never returns normally and
    never gets to the data: the pipeline is not created or built, no
    iterator is made, [unsigned_spikes] and [validate] are not called. *)
Theorem main_rejects_inception_v3 :
  arg_test args = false → arg_arch args = "inception_v3" →
  ¬ finished (main w args fs)
  ∧ ∀ c, c ∈ calls (ended_state (main w args fs)) →
         match c with
         | CreatePipeline _ | BuildPipeline | MakeIterator | UnsignedSpikes | Validate _ => False
         | _ => True
         end.
Proof.
  intros Htest Harch.
  assert (arg_arch (effective args) = "inception_v3") as Heff.
  { unfold effective. by rewrite Htest. }
  split.
  - intros (a & s & Hrun). pose proof main_spec as H. rewrite Hrun in H.
    by destruct H as (_ & _ & Hne & _).
  - intros c Hin. pose proof main_calls as Hcalls.
    rewrite Forall_forall in Hcalls. specialize (Hcalls _ Hin).
    destruct c; try done; simpl in Hcalls; by destruct_and?.
Qed.

(** X19.  Whenever [main] creates the pipeline it does so with the
    arguments of [pipeline_kw]: [shard_id] and [device_id] are
    [args.local_rank], the seed is [12 + args.local_rank], [num_shards] is the
    world size ([get_world_size()] in distributed mode, 1 otherwise), crop
    224, size 256, [is_training=False], and the validation directory derived
    from [args.data]. *)
Theorem main_pipeline_arguments (kw : PipelineArgs) :
  CreatePipeline kw ∈ calls (ended_state (main w args fs)) →
  kw = pipeline_kw w args.
Proof.
  intros Hin. pose proof main_calls as Hcalls.
  rewrite Forall_forall in Hcalls. by destruct (Hcalls _ Hin) as [_ ->].
Qed.

(** X20.  When [WORLD_SIZE] is not set, or is an integer below 1, the run is
    a single-process one: no device is selected, no process group is
    initialised or asked for its size, the model is not wrapped; the
    learning rate is scaled by [batch_size / 256] and the reader is asked for
    shard [args.local_rank] of 1, whatever [--local_rank] is. *)
Theorem main_single_process :
  distributed_of w = false →
  ∀ c, c ∈ calls (ended_state (main w args fs)) →
       match c with
       | SetDevice _ | InitProcessGroup | GetWorldSize | WrapDDP _ => False
       | MakeSGD lr _ _ =>
           lr = arg_lr args * Qc_of_Z (arg_batch_size (effective args)) / Qn 256
       | CreatePipeline kw =>
           kw_shard_id kw = arg_local_rank args ∧ kw_num_shards kw = 1%Z
       | _ => True
       end.
Proof.
  intros Hdist c Hin. pose proof main_calls as Hcalls.
  rewrite Forall_forall in Hcalls. specialize (Hcalls _ Hin).
  assert (world_size_of w = 1%Z) as Hws by (unfold world_size_of; by rewrite Hdist).
  destruct c; try done; simpl in Hcalls; destruct_and?; try congruence.
  - subst lr. rewrite Hws, Z.mul_1_r. unfold effective. by destruct (arg_test args).
  - subst kw. simpl. split; [|done]. unfold effective. by destruct (arg_test args).
Qed.

(** X21.  Each of the statements of [main] that raise does so only under
    its condition: [raise Exception("error: No data set provided")] only
    when no data path was given outside test mode, and then before any
    external call; the [ValueError] of [int] only when [WORLD_SIZE] is set and
    is no integer literal; the [assert] only when cudnn is disabled; [exit()]
    only when [--init] names something that is no regular file;
    [raise RuntimeError("Currently, inception_v3 ...")] only for
    [inception_v3].  Every other exception comes out of a callee: out of
    [torch.load], [checkpoint[key]] or [load_state_dict], of whatever class,
    only when [--init] or [--resume] was given; otherwise it is what the
    external call made last has raised. *)
Theorem main_abort_causes (e : MainExn) (s : MainState StateDict) :
  main w args fs = Aborted e s → abort_cause w args fs e s.
Proof. intros Hrun. pose proof main_spec as H. rewrite Hrun in H. apply H. Qed.

(** X22.  What [main] does to the file system: every path keeps what it
    held, except that [result] and [result/<arch>_<bit>bit] may have become
    directories where there was nothing; [os.makedirs] is only called on one
    of these two paths, and only when nothing was there. *)
Theorem main_creates_only_result_directories :
  grown args fs (disk (ended_state (main w args fs)))
  ∧ ∀ path, Makedirs path ∈ calls (ended_state (main w args fs)) →
            fs !! path = None ∧ (path = "result" ∨ path = fdir_of (effective args)).
Proof.
  split; [apply main_disk|].
  intros path Hin. pose proof main_calls as Hcalls.
  rewrite Forall_forall in Hcalls. apply (Hcalls _ Hin).
Qed.

(** X23.  [--resume] has the last word on the model: when it names a
    checkpoint with the four keys, every call of [validate] is on the
    checkpoint's [state_dict], whatever [--pretrained] and [--init] had put
    into the model before. *)
Theorem main_validates_resumed_model (checkpoint : gmap string (PyVal StateDict))
    (epoch best : PyVal StateDict) (model_sd optimizer_sd : StateDict) :
  arg_resume args ≠ EmptyString →
  fs !! arg_resume args = Some (RegularFile (Some checkpoint)) →
  checkpoint !! "epoch" = Some epoch → checkpoint !! "best_prec1" = Some best →
  checkpoint !! "state_dict" = Some (VState model_sd) →
  checkpoint !! "optimizer" = Some (VState optimizer_sd) →
  ∀ model, Validate model ∈ calls (ended_state (main w args fs)) → model = model_sd.
Proof.
  intros Hpath Hfile He Hb Hm Ho model Hin. pose proof main_calls as Hcalls.
  rewrite Forall_forall in Hcalls.
  destruct (Hcalls _ Hin) as (_ & _ & initial & epoch0 & best0 & st' & _ & Hrun & ->).
  assert (arg_resume (effective args) = arg_resume args) as Heff
    by (unfold effective; by destruct (arg_test args)).
  rewrite Heff in Hrun. unfold main_resume in Hrun. rewrite decide_False in Hrun by done.
  rewrite (resume_loaded fs _ checkpoint epoch best model_sd optimizer_sd) in Hrun by done.
  by injection Hrun as <-.
Qed.

(** X24.  Without [--resume], or when it names no regular file, [validate]
    is called on the model as [--init] left it: the newly built model when
    [--init] is not given, the [state_dict] of the initialisation file
    otherwise. *)
Theorem main_validates_initial_model :
  arg_resume args = EmptyString ∨ isfile _ fs (arg_resume args) = false →
  ∀ model, Validate model ∈ calls (ended_state (main w args fs)) →
           init_model w args fs model.
Proof.
  intros Hpath model Hin. pose proof main_calls as Hcalls.
  rewrite Forall_forall in Hcalls.
  destruct (Hcalls _ Hin) as (_ & _ & initial & epoch0 & best0 & st' & Hinit & Hrun & ->).
  assert (arg_resume (effective args) = arg_resume args) as Heff
    by (unfold effective; by destruct (arg_test args)).
  rewrite Heff in Hrun. unfold main_resume, resume in Hrun.
  destruct Hpath as [Hpath|Hpath].
  - rewrite decide_True in Hrun by done. by injection Hrun as <-.
  - case_decide; [by injection Hrun as <-|]. rewrite Hpath in Hrun. by injection Hrun as <-.
Qed.

(** X25.  [validate] is called at most once and nothing is called after it;
    and a run with [-e] that returns normally has called it. *)
Theorem main_validates_last :
  validate_last (ended_state (main w args fs))
  ∧ (arg_evaluate args = true → finished (main w args fs) →
     ∃ before model, calls (ended_state (main w args fs)) = before ++ [Validate model]).
Proof.
  pose proof main_spec as H. split.
  - destruct (main w args fs); simpl; apply H.
  - intros Hev (a & s & Hrun). rewrite Hrun in *. simpl.
    destruct H as (_ & _ & _ & H). apply H.
    unfold effective. by destruct (arg_test args).
Qed.

(** X26.  Test mode replaces what the command line said: with [-t] the
    run never stops for want of a data path, the model built is [resnet50],
    and the pipeline reads [/data/imagenet/val/] in batches of 64. *)
Theorem main_test_mode_presets :
  arg_test args = true →
  (∀ s, main w args fs ≠ Aborted (Exception "error: No data set provided") s)
  ∧ ∀ c, c ∈ calls (ended_state (main w args fs)) →
         match c with
         | CreateModel arch _ _ => arch = "resnet50"
         | CreatePipeline kw =>
             kw_batch_size kw = 64%Z ∧ kw_data_dir kw = "/data/imagenet/val/"
         | _ => True
         end.
Proof.
  intros Htest. split.
  - intros s Hrun. pose proof main_spec as H. rewrite Hrun in H.
    destruct H as (_ & _ & _ & Hno & _). congruence.
  - intros c Hin. pose proof main_calls as Hcalls.
    rewrite Forall_forall in Hcalls. specialize (Hcalls _ Hin).
    unfold call_site, pipeline_kw, effective in Hcalls. rewrite Htest in Hcalls.
    destruct c; try done; simpl in Hcalls; destruct_and?; by subst.
Qed.

End MainFacts.

(** Two runs of [main] on the concrete instance: rank 1 of two processes
    resuming from [ckpt.pth] with [-e], and a single process started with
    [--local_rank 3] and without [-e]. *)
Example main_try :
  calls (ended_state (main demo_group resumed_run demo_fs))
  = [SetDevice 1; InitProcessGroup; GetWorldSize; CreateModel "resnet18" false 5;
     ToCuda (Some false);
     MakeSGD (Q2Qc (1 # 40)) (Q2Qc (9 # 10)) (Q2Qc (1 # 10000));
     WrapDDP 1; Makedirs "result/resnet18_5bit"; MakeCriterion;
     CreatePipeline {| kw_batch_size := 32; kw_num_threads := 4; kw_device_id := 1;
                       kw_seed := 13; kw_data_dir := "/imagenet/val"; kw_crop := 224;
                       kw_size := 256; kw_dali_cpu := false; kw_shard_id := 1;
                       kw_num_shards := 2; kw_is_training := false |};
     BuildPipeline; MakeIterator; Validate 11%nat].
Proof. by_evaluation. Qed.

Example main_single_try :
  calls (ended_state (main demo_world rank3_run demo_fs))
  = [CreateModel "resnet18" false 5; ToCuda (Some false);
     MakeSGD (Q2Qc (1 # 80)) (Q2Qc (9 # 10)) (Q2Qc (1 # 10000));
     Makedirs "result/resnet18_5bit"; MakeCriterion;
     CreatePipeline {| kw_batch_size := 32; kw_num_threads := 4; kw_device_id := 3;
                       kw_seed := 15; kw_data_dir := "/val"; kw_crop := 224; kw_size := 256;
                       kw_dali_cpu := false; kw_shard_id := 3; kw_num_shards := 1;
                       kw_is_training := false |};
     BuildPipeline; MakeIterator].
Proof. by_evaluation. Qed.

Lemma main_validates_only_on_request_witness :
  Validate 1%nat
  ∉ calls (ended_state (main demo_world rank3_run demo_fs)).
Proof.
  apply (main_validates_only_on_request demo_world rank3_run demo_fs).
  reflexivity.
Defined.

Lemma main_rejects_inception_v3_witness :
  ¬ finished (main demo_world inception_run demo_fs)
  ∧ ∀ c, c ∈ calls (ended_state (main demo_world inception_run demo_fs)) →
         match c with
         | CreatePipeline _ | BuildPipeline | MakeIterator | UnsignedSpikes | Validate _ => False
         | _ => True
         end.
Proof.
  apply (main_rejects_inception_v3 demo_world inception_run demo_fs);
    reflexivity.
Defined.

Lemma main_pipeline_arguments_witness :
  {| kw_batch_size := 32; kw_num_threads := 4; kw_device_id := 1; kw_seed := 13;
     kw_data_dir := "/imagenet/val"; kw_crop := 224; kw_size := 256; kw_dali_cpu := false;
     kw_shard_id := 1; kw_num_shards := 2; kw_is_training := false |}
  = pipeline_kw demo_group resumed_run.
Proof.
  apply (main_pipeline_arguments demo_group resumed_run demo_fs).
  by_evaluation.
Defined.

Lemma main_single_process_witness :
  let kw := {| kw_batch_size := 32; kw_num_threads := 4; kw_device_id := 3; kw_seed := 15;
               kw_data_dir := "/val"; kw_crop := 224; kw_size := 256; kw_dali_cpu := false;
               kw_shard_id := 3; kw_num_shards := 1; kw_is_training := false |} in
  CreatePipeline kw
  ∈ calls (ended_state (main demo_world rank3_run demo_fs))
  ∧ kw_shard_id kw = 3%Z ∧ kw_num_shards kw = 1%Z.
Proof.
  cbv zeta. split; [by_evaluation|].
  apply (main_single_process demo_world rank3_run demo_fs eq_refl
           (CreatePipeline
              {| kw_batch_size := 32; kw_num_threads := 4; kw_device_id := 3; kw_seed := 15;
                 kw_data_dir := "/val"; kw_crop := 224; kw_size := 256; kw_dali_cpu := false;
                 kw_shard_id := 3; kw_num_shards := 1; kw_is_training := false |})).
  by_evaluation.
Defined.

Lemma main_abort_causes_witness :
  abort_cause demo_world no_data_run demo_fs
    (Exception "error: No data set provided")
    {| calls := []; args_start_epoch := VInt 0; global_best_prec1 := VInt 0;
       disk := demo_fs |}.
Proof.
  apply (main_abort_causes demo_world no_data_run demo_fs).
  reflexivity.
Defined.

Lemma main_validates_resumed_model_witness :
  Validate 11%nat
  ∈ calls (ended_state (main demo_group resumed_run demo_fs))
  ∧ ∀ model,
      Validate model
      ∈ calls (ended_state (main demo_group resumed_run demo_fs)) →
      model = 11%nat.
Proof.
  split; [by_evaluation|].
  apply (main_validates_resumed_model demo_group resumed_run demo_fs
           demo_checkpoint (VInt 7) (VFloat (Qn 71)) 11%nat 12%nat).
  - discriminate.
  - reflexivity.
  - reflexivity.
  - reflexivity.
  - reflexivity.
  - reflexivity.
Defined.

Lemma main_validates_initial_model_witness :
  Validate 1%nat
  ∈ calls (ended_state (main demo_world fresh_run demo_fs))
  ∧ ∀ model,
      Validate model
      ∈ calls (ended_state (main demo_world fresh_run demo_fs)) →
      init_model demo_world fresh_run
                 demo_fs model.
Proof.
  split; [by_evaluation|].
  apply (main_validates_initial_model demo_world fresh_run demo_fs).
  right. reflexivity.
Defined.

Lemma main_test_mode_presets_witness :
  (∀ s, main demo_world test_run demo_fs
        ≠ Aborted (Exception "error: No data set provided") s)
  ∧ ∀ c, c ∈ calls (ended_state (main demo_world test_run demo_fs)) →
         match c with
         | CreateModel arch _ _ => arch = "resnet50"
         | CreatePipeline kw =>
             kw_batch_size kw = 64%Z ∧ kw_data_dir kw = "/data/imagenet/val/"
         | _ => True
         end.
Proof.
  apply (main_test_mode_presets demo_world test_run demo_fs).
  reflexivity.
Defined.
